(** * Settings::Preview — the interface-scale preview popup

    A shallow embedding of
    [Telegram/SourceFiles/settings/settings_scale_preview.cpp]:
    the layout engine ([updateToScale]), the positioning engine
    ([updateGlobalPosition] and friends), the visibility controller
    ([toggle], [toggleShown], [toggleFilter]), the lazily validated caches
    and the paint pipeline of the [Preview] class, and [SetupScalePreview].

    C++ [int] values are modelled in [Z].  Signed overflow is undefined in
    C++ and every quantity here is a pixel count far below [2^31], so no
    wrap-around is written out.  Integer division is C++ division, that is
    truncation towards zero ([Z.quot]). *)

From Stdlib Require Import ZArith List String Bool Lia QArith.
Import ListNotations.

#[local] Open Scope Z_scope.

(** ** Qt value types *)

Record QPoint := mkPoint { point_x : Z; point_y : Z }.
Record QSize := mkSize { size_width : Z; size_height : Z }.
Record QMargins := mkMargins {
  margins_left : Z; margins_top : Z; margins_right : Z; margins_bottom : Z }.

(** A [QRect] is kept as origin and extent; Qt stores the two corners
    [(x1, y1)] and [(x2, y2) = (x1 + w - 1, y1 + h - 1)]. *)
Record QRect := mkRect {
  rect_x : Z; rect_y : Z; rect_width : Z; rect_height : Z }.

(** The default-constructed values [QRect()], [QSize()] and [QPoint()]. *)
Definition QRect_null : QRect := mkRect 0 0 0 0.
Definition QSize_default : QSize := mkSize (-1) (-1).
Definition point_origin : QPoint := mkPoint 0 0.
Definition QRect_of (p : QPoint) (sz : QSize) : QRect :=
  mkRect (point_x p) (point_y p) (size_width sz) (size_height sz).
Definition topLeft (r : QRect) : QPoint := mkPoint (rect_x r) (rect_y r).
Definition rect_size (r : QRect) : QSize :=
  mkSize (rect_width r) (rect_height r).

Definition point_neg (p : QPoint) : QPoint :=
  mkPoint (- point_x p) (- point_y p).
Definition point_add (p q : QPoint) : QPoint :=
  mkPoint (point_x p + point_x q) (point_y p + point_y q).
Definition point_sub (p q : QPoint) : QPoint :=
  mkPoint (point_x p - point_x q) (point_y p - point_y q).

Definition size_mul (sz : QSize) (k : Z) : QSize :=
  mkSize (size_width sz * k) (size_height sz * k).

Definition margins_add (a b : QMargins) : QMargins :=
  mkMargins (margins_left a + margins_left b) (margins_top a + margins_top b)
            (margins_right a + margins_right b)
            (margins_bottom a + margins_bottom b).

Definition marginsAdded (r : QRect) (m : QMargins) : QRect :=
  mkRect (rect_x r - margins_left m) (rect_y r - margins_top m)
         (rect_width r + margins_left m + margins_right m)
         (rect_height r + margins_top m + margins_bottom m).

Definition moveTopLeft (r : QRect) (p : QPoint) : QRect :=
  mkRect (point_x p) (point_y p) (rect_width r) (rect_height r).
Definition moveTop (r : QRect) (y : Z) : QRect :=
  mkRect (rect_x r) y (rect_width r) (rect_height r).
Definition moveLeft (r : QRect) (x : Z) : QRect :=
  mkRect x (rect_y r) (rect_width r) (rect_height r).
Definition translated (r : QRect) (p : QPoint) : QRect :=
  mkRect (rect_x r + point_x p) (rect_y r + point_y p)
         (rect_width r) (rect_height r).

Definition rect_isNull (r : QRect) : bool :=
  (rect_width r =? 0) && (rect_height r =? 0).
Definition rect_isEmpty (r : QRect) : bool :=
  (rect_width r <=? 0) || (rect_height r <=? 0).
Definition size_isEmpty (sz : QSize) : bool :=
  (size_width sz <=? 0) || (size_height sz <=? 0).

(** [QRect::operator&]: both rects are normalized first (a negative extent
    swaps the two corners), the result is the null rect when either operand
    is null or when they do not overlap. *)
Definition span_lo (a w : Z) : Z := if w <? 0 then a + w - 1 else a.
Definition span_hi (a w : Z) : Z := if w <? 0 then a else a + w - 1.

Definition intersected (a b : QRect) : QRect :=
  if rect_isNull a || rect_isNull b then QRect_null else
  let l1 := span_lo (rect_x a) (rect_width a) in
  let r1 := span_hi (rect_x a) (rect_width a) in
  let l2 := span_lo (rect_x b) (rect_width b) in
  let r2 := span_hi (rect_x b) (rect_width b) in
  if (r2 <? l1) || (r1 <? l2) then QRect_null else
  let t1 := span_lo (rect_y a) (rect_height a) in
  let b1 := span_hi (rect_y a) (rect_height a) in
  let t2 := span_lo (rect_y b) (rect_height b) in
  let b2 := span_hi (rect_y b) (rect_height b) in
  if (b2 <? t1) || (b1 <? t2) then QRect_null else
  let x1 := Z.max l1 l2 in
  let x2 := Z.min r1 r2 in
  let y1 := Z.max t1 t2 in
  let y2 := Z.min b1 b2 in
  mkRect x1 y1 (x2 - x1 + 1) (y2 - y1 + 1).

(** [QRect::intersects]. *)
Definition intersects (a b : QRect) : bool :=
  if rect_isNull a || rect_isNull b then false else
  let l1 := span_lo (rect_x a) (rect_width a) in
  let r1 := span_hi (rect_x a) (rect_width a) in
  let l2 := span_lo (rect_x b) (rect_width b) in
  let r2 := span_hi (rect_x b) (rect_width b) in
  if (r2 <? l1) || (r1 <? l2) then false else
  let t1 := span_lo (rect_y a) (rect_height a) in
  let b1 := span_hi (rect_y a) (rect_height a) in
  let t2 := span_lo (rect_y b) (rect_height b) in
  let b2 := span_hi (rect_y b) (rect_height b) in
  negb ((b2 <? t1) || (b1 <? t2)).

(** [std::clamp(v, lo, hi)], [std::min], [std::max]. *)
Definition clamp (v lo hi : Z) : Z :=
  if v <? lo then lo else if hi <? v then hi else v.

(** A [std::array<T, 4>]. *)
Record Array4 (A : Type) := mkArray4 { a0 : A; a1 : A; a2 : A; a3 : A }.
Arguments mkArray4 {A}.
Arguments a0 {A}.
Arguments a1 {A}.
Arguments a2 {A}.
Arguments a3 {A}.

(** ** Style values *)

(** Palette entries and icons of the style system that the preview names. *)
Inductive Color :=
| msgInBg | msgInShadow | msgInReplyBarColor | msgInServiceFg
| historyTextInFg | windowShadowFg.

Inductive Icon :=
| historyBubbleTailInLeft
| callShadow_left | callShadow_top | callShadow_right | callShadow_bottom
| callShadow_topLeft | callShadow_bottomLeft
| callShadow_topRight | callShadow_bottomRight.

(** [style::font(size, flags, family)]. *)
Record font := mkFont { font_size : Z; font_flags : Z; font_family : Z }.

Record TextStyle := mkTextStyle {
  style_font : font;
  style_linkFont : font;
  style_linkFontOver : font;
  style_lineHeight : Z }.

Inductive TextOptions := NameTextOptions | ItemTextDefaultOptions.

(** A [Ui::Text::String]: built with a minimal resize width, filled by
    [setText(style, text, options)]. *)
Record TextString := mkTextString {
  text_minResizeWidth : Z;
  text_content : option (TextStyle * string * TextOptions) }.

Definition setText (st : TextStyle) (text : string) (o : TextOptions)
    (t : TextString) : TextString :=
  mkTextString (text_minResizeWidth t) (Some (st, text, o)).

(** [style::Shadow]: the eight icons are the [callShadow_*] icons above,
    the extents are rewritten by the layout. *)
Record Shadow := mkShadow { shadow_extend : QMargins }.

(** ** Images

    Pixel contents are not modelled: an image is the expression that built
    it, which is all its emptiness depends on. *)
Inductive QImage :=
| NullImage
| SourceImage (id : Z)
| IconInstance (icon : Icon) (color : Color) (scale : Z)
| CornerPixmap (radius : Z) (color : Color) (corner : Z)
| CircleImage (source : QImage) (size : QSize) (ratio : Z)
| Buffer (size : QSize) (ratio : Z)
| Rounded (image : QImage) (m0 m1 m2 m3 : QImage)
| CornerMask (radius : Z) (corner : Z).

Fixpoint isNull (i : QImage) : bool :=
  match i with
  | NullImage => true
  | CircleImage src sz _ => isNull src || size_isEmpty sz
  | Buffer sz _ => size_isEmpty sz
  | Rounded img _ _ _ _ => isNull img
  | _ => false
  end.

Definition null_images : Array4 QImage :=
  mkArray4 NullImage NullImage NullImage NullImage.

(** [Ui::PrepareCornerPixmaps(radius, color)]. *)
Definition PrepareCornerPixmaps (radius : Z) (c : Color) : Array4 QImage :=
  mkArray4 (CornerPixmap radius c 0) (CornerPixmap radius c 1)
           (CornerPixmap radius c 2) (CornerPixmap radius c 3).

(** [Images::CornersMask(radius)]. *)
Definition CornersMask (radius : Z) : Array4 QImage :=
  mkArray4 (CornerMask radius 0) (CornerMask radius 1)
           (CornerMask radius 2) (CornerMask radius 3).

(** ** The widget, the animation and the recorded effects *)

Definition WidgetId := Z.

Inductive WidgetSetting :=
| FramelessToolTipFlags   (* setWindowFlags(Frameless | ... | ToolTip) *)
| WA_TransparentForMouseEvents
| WA_NoSystemBackground
| WA_TranslucentBackground.

(** The part of [Ui::RpWidget _widget] that the class reads back. *)
Record Widget := mkWidget {
  widget_geometry : QRect;
  widget_hidden : bool;
  widget_settings : list WidgetSetting }.

(** [Ui::ChatTheme]: default constructed, then given the background
    descriptor that [Window::Theme::Background()] holds at construction. *)
Inductive ChatTheme :=
| ThemeDefault
| ThemeBackground (descriptor : Z).

(** Modelled from the spec: [Ui::Animations::Simple], whose code is not in
    this file.  It is "a simple time-based tween": [start] "starts
    interpolation from current progress" to the new target, and a start
    while another interpolation runs "redirects interpolation target"
    ("last-write-wins on target value, no queued transitions").  The
    [from] argument of [start] is the progress assumed when nothing runs.
    [None] is an animation that is not running. *)
Record Tween := mkTween {
  tween_from : Q; tween_value : Q; tween_to : Q; tween_duration : Z }.
Definition Simple := option Tween.

Definition Simple_animating (a : Simple) : bool :=
  match a with Some _ => true | None => false end.
Definition Simple_value (a : Simple) (final : Q) : Q :=
  match a with Some t => tween_value t | None => final end.
Definition Simple_start (from to : Q) (duration : Z) (a : Simple) : Simple :=
  let current := Simple_value a from in
  Some (mkTween current current to duration).
Definition Simple_stop (a : Simple) : Simple := None.
(** A tick of the animation subsystem moves the value; the last tick sets it
    to the target and stops the tween. *)
Definition Simple_tick (v : Q) (a : Simple) : Simple :=
  match a with
  | Some t => Some (mkTween (tween_from t) v (tween_to t) (tween_duration t))
  | None => None
  end.

Inductive CompositionMode :=
| CompositionMode_Source
| CompositionMode_SourceOver.

(** Calls made on a [Painter], in order. *)
Inductive PaintOp :=
| SetClipRect (r : QRect)
| SetOpacity (o : Q)
| SetCompositionMode (m : CompositionMode)
| SetPen (c : Color)
| Translate (dx dy : Z)
| Scale (sx sy : Q)
| HighQualityEnabler
| DrawImage (at_ : QPoint) (img : QImage)
| DrawPixmap (x y : Z) (pm : QImage)
| FillRect (r : QRect) (c : Color)
| FillRoundRect (r : QRect) (c : Color) (corners : Array4 QImage)
| ShadowPaint (box : QRect) (outerWidth : Z) (st : Shadow)
              (sides corners : Array4 QImage)
| PaintBackground (fill : QSize) (clip : QRect)
| DrawLeftElided (t : TextString) (left top width outerw lines : Z).

Inductive PaintTarget := OnWidget | OnLayer | OnCanvas.

(** What the object does to its surroundings, newest first. *)
Inductive Effect :=
| WidgetUpdate (r : QRect)
| WidgetShow
| WidgetHide
| WidgetSetGeometry (r : QRect)
| UpdateOverlayed
| AnimationStart (from to : Q) (duration : Z)
| AnimationStop
| Painted (target : PaintTarget) (ops : list PaintOp).

Inductive ScalePreviewShow := Hide | Show | Update.

Inductive QEventType :=
| Event_Move | Event_Resize | Event_Show | Event_ShowToParent
| Event_ZOrderChange | Event_Other.

Inductive ApplicationState :=
| ApplicationActive | ApplicationInactive | ApplicationHidden
| ApplicationSuspended.

(** ** The session layer *)

Record UserData := mkUserData {
  user_id : Z;
  activeUserpicView : Z }.
(** [controller->session().user()] is a [not_null] pointer. *)
Record SessionController := mkSessionController { session_user : UserData }.
Record Controller := mkController {
  sessionController : option SessionController }.

(** ** What the file takes from elsewhere

    Constants and functions of the style system, the text engine and the
    platform layer.  Their code is not in this file; the development is
    parametric in them. *)
Record Externals := mkExternals {
  ConvertScale : Z -> Z -> Z;             (* style::ConvertScale *)
  font_height : font -> Z;                (* font->height *)
  maxWidth : TextString -> Z;             (* Ui::Text::String::maxWidth() *)
  countHeight : TextString -> Z -> Z;     (* Ui::Text::String::countHeight *)
  logicalSize : QImage -> QSize;          (* size() / devicePixelRatio() *)
  kScaleMin : Z;
  kScaleMax : Z;
  DevicePixelRatio : Z;
  IsWayland : bool;
  TranslucentWindowsSupported : bool;
  fwdTextStyle : TextStyle;
  messageTextStyle : TextStyle;
  callShadow : Shadow;
  slideWrapDuration : Z;
  kBarAlpha : Q;                          (* HistoryMessageReply::kBarAlpha *)
  themeBackground : Z;                    (* Window::Theme::Background() *)
  PeerUserpicImageValue : UserData -> Z -> Z -> list QImage }.

(** The surroundings of the widget at the time of a call. *)
Record World := mkWorld {
  parent_pos : QPoint;                    (* parent->pos() *)
  parent_width : Z;                       (* parent->width() *)
  parent_global : QPoint;                 (* parent->mapToGlobal(QPoint()) *)
  parent_screen : option QRect;           (* the screen's availableGeometry() *)
  parent_chain : list WidgetId;           (* parentWidget(), its parent, ... *)
  widget_window : WidgetId }.             (* _widget.window() *)

(** ** The object *)

Record Preview := mkPreview {
  _widget : Widget;
  _theme : ChatTheme;
  _nameStyle : TextStyle;
  _nameText : TextString;
  _textStyle : TextStyle;
  _replyText : TextString;
  _messageText : TextString;
  _shadow : Shadow;
  _shadowSides : Array4 QImage;
  _shadowCorners : Array4 QImage;
  _bubbleCorners : Array4 QImage;
  _bubbleShadowBottomRight : QImage;
  _bubbleShadow : Z;
  _localShiftLeft : Z;
  _bubbleTail : QImage;
  _replyBar : QRect;
  _name : QRect;
  _reply : QRect;
  _message : QRect;
  _content : QRect;
  _bubble : QRect;
  _userpic : QRect;
  _inner : QRect;
  _outer : QRect;
  _minOuterSize : QSize;
  _maxOuterSize : QSize;
  _layer : QImage;
  _canvas : QImage;
  _cursor : QPoint;
  _canvasCornerMasks : Array4 QImage;
  _userpicOriginal : QImage;
  _userpicImage : QImage;
  _scale : Z;
  _ratio : Z;
  _window : bool;
  _shownAnimation : Simple;
  _shown : bool;
  _filter : option (list WidgetId);
  effects : list Effect
}.

(** Field assignment.  [set_f v s] is the object [s] after [f = v]. *)
Definition set_widget (v : Widget) (s : Preview) : Preview :=
  mkPreview v (_theme s) (_nameStyle s) (_nameText s) (_textStyle s)
    (_replyText s) (_messageText s) (_shadow s) (_shadowSides s)
    (_shadowCorners s) (_bubbleCorners s) (_bubbleShadowBottomRight s)
    (_bubbleShadow s) (_localShiftLeft s) (_bubbleTail s) (_replyBar s)
    (_name s) (_reply s) (_message s) (_content s) (_bubble s) (_userpic s)
    (_inner s) (_outer s) (_minOuterSize s) (_maxOuterSize s) (_layer s)
    (_canvas s) (_cursor s) (_canvasCornerMasks s) (_userpicOriginal s)
    (_userpicImage s) (_scale s) (_ratio s) (_window s) (_shownAnimation s)
    (_shown s) (_filter s) (effects s).
Definition set_theme (v : ChatTheme) (s : Preview) : Preview :=
  mkPreview (_widget s) v (_nameStyle s) (_nameText s) (_textStyle s)
    (_replyText s) (_messageText s) (_shadow s) (_shadowSides s)
    (_shadowCorners s) (_bubbleCorners s) (_bubbleShadowBottomRight s)
    (_bubbleShadow s) (_localShiftLeft s) (_bubbleTail s) (_replyBar s)
    (_name s) (_reply s) (_message s) (_content s) (_bubble s) (_userpic s)
    (_inner s) (_outer s) (_minOuterSize s) (_maxOuterSize s) (_layer s)
    (_canvas s) (_cursor s) (_canvasCornerMasks s) (_userpicOriginal s)
    (_userpicImage s) (_scale s) (_ratio s) (_window s) (_shownAnimation s)
    (_shown s) (_filter s) (effects s).
Definition set_nameStyle (v : TextStyle) (s : Preview) : Preview :=
  mkPreview (_widget s) (_theme s) v (_nameText s) (_textStyle s)
    (_replyText s) (_messageText s) (_shadow s) (_shadowSides s)
    (_shadowCorners s) (_bubbleCorners s) (_bubbleShadowBottomRight s)
    (_bubbleShadow s) (_localShiftLeft s) (_bubbleTail s) (_replyBar s)
    (_name s) (_reply s) (_message s) (_content s) (_bubble s) (_userpic s)
    (_inner s) (_outer s) (_minOuterSize s) (_maxOuterSize s) (_layer s)
    (_canvas s) (_cursor s) (_canvasCornerMasks s) (_userpicOriginal s)
    (_userpicImage s) (_scale s) (_ratio s) (_window s) (_shownAnimation s)
    (_shown s) (_filter s) (effects s).
Definition set_nameText (v : TextString) (s : Preview) : Preview :=
  mkPreview (_widget s) (_theme s) (_nameStyle s) v (_textStyle s)
    (_replyText s) (_messageText s) (_shadow s) (_shadowSides s)
    (_shadowCorners s) (_bubbleCorners s) (_bubbleShadowBottomRight s)
    (_bubbleShadow s) (_localShiftLeft s) (_bubbleTail s) (_replyBar s)
    (_name s) (_reply s) (_message s) (_content s) (_bubble s) (_userpic s)
    (_inner s) (_outer s) (_minOuterSize s) (_maxOuterSize s) (_layer s)
    (_canvas s) (_cursor s) (_canvasCornerMasks s) (_userpicOriginal s)
    (_userpicImage s) (_scale s) (_ratio s) (_window s) (_shownAnimation s)
    (_shown s) (_filter s) (effects s).
Definition set_textStyle (v : TextStyle) (s : Preview) : Preview :=
  mkPreview (_widget s) (_theme s) (_nameStyle s) (_nameText s) v
    (_replyText s) (_messageText s) (_shadow s) (_shadowSides s)
    (_shadowCorners s) (_bubbleCorners s) (_bubbleShadowBottomRight s)
    (_bubbleShadow s) (_localShiftLeft s) (_bubbleTail s) (_replyBar s)
    (_name s) (_reply s) (_message s) (_content s) (_bubble s) (_userpic s)
    (_inner s) (_outer s) (_minOuterSize s) (_maxOuterSize s) (_layer s)
    (_canvas s) (_cursor s) (_canvasCornerMasks s) (_userpicOriginal s)
    (_userpicImage s) (_scale s) (_ratio s) (_window s) (_shownAnimation s)
    (_shown s) (_filter s) (effects s).
Definition set_replyText (v : TextString) (s : Preview) : Preview :=
  mkPreview (_widget s) (_theme s) (_nameStyle s) (_nameText s)
    (_textStyle s) v (_messageText s) (_shadow s) (_shadowSides s)
    (_shadowCorners s) (_bubbleCorners s) (_bubbleShadowBottomRight s)
    (_bubbleShadow s) (_localShiftLeft s) (_bubbleTail s) (_replyBar s)
    (_name s) (_reply s) (_message s) (_content s) (_bubble s) (_userpic s)
    (_inner s) (_outer s) (_minOuterSize s) (_maxOuterSize s) (_layer s)
    (_canvas s) (_cursor s) (_canvasCornerMasks s) (_userpicOriginal s)
    (_userpicImage s) (_scale s) (_ratio s) (_window s) (_shownAnimation s)
    (_shown s) (_filter s) (effects s).
Definition set_messageText (v : TextString) (s : Preview) : Preview :=
  mkPreview (_widget s) (_theme s) (_nameStyle s) (_nameText s)
    (_textStyle s) (_replyText s) v (_shadow s) (_shadowSides s)
    (_shadowCorners s) (_bubbleCorners s) (_bubbleShadowBottomRight s)
    (_bubbleShadow s) (_localShiftLeft s) (_bubbleTail s) (_replyBar s)
    (_name s) (_reply s) (_message s) (_content s) (_bubble s) (_userpic s)
    (_inner s) (_outer s) (_minOuterSize s) (_maxOuterSize s) (_layer s)
    (_canvas s) (_cursor s) (_canvasCornerMasks s) (_userpicOriginal s)
    (_userpicImage s) (_scale s) (_ratio s) (_window s) (_shownAnimation s)
    (_shown s) (_filter s) (effects s).
Definition set_shadow (v : Shadow) (s : Preview) : Preview :=
  mkPreview (_widget s) (_theme s) (_nameStyle s) (_nameText s)
    (_textStyle s) (_replyText s) (_messageText s) v (_shadowSides s)
    (_shadowCorners s) (_bubbleCorners s) (_bubbleShadowBottomRight s)
    (_bubbleShadow s) (_localShiftLeft s) (_bubbleTail s) (_replyBar s)
    (_name s) (_reply s) (_message s) (_content s) (_bubble s) (_userpic s)
    (_inner s) (_outer s) (_minOuterSize s) (_maxOuterSize s) (_layer s)
    (_canvas s) (_cursor s) (_canvasCornerMasks s) (_userpicOriginal s)
    (_userpicImage s) (_scale s) (_ratio s) (_window s) (_shownAnimation s)
    (_shown s) (_filter s) (effects s).
Definition set_shadowSides (v : Array4 QImage) (s : Preview) : Preview :=
  mkPreview (_widget s) (_theme s) (_nameStyle s) (_nameText s)
    (_textStyle s) (_replyText s) (_messageText s) (_shadow s) v
    (_shadowCorners s) (_bubbleCorners s) (_bubbleShadowBottomRight s)
    (_bubbleShadow s) (_localShiftLeft s) (_bubbleTail s) (_replyBar s)
    (_name s) (_reply s) (_message s) (_content s) (_bubble s) (_userpic s)
    (_inner s) (_outer s) (_minOuterSize s) (_maxOuterSize s) (_layer s)
    (_canvas s) (_cursor s) (_canvasCornerMasks s) (_userpicOriginal s)
    (_userpicImage s) (_scale s) (_ratio s) (_window s) (_shownAnimation s)
    (_shown s) (_filter s) (effects s).
Definition set_shadowCorners (v : Array4 QImage) (s : Preview) : Preview :=
  mkPreview (_widget s) (_theme s) (_nameStyle s) (_nameText s)
    (_textStyle s) (_replyText s) (_messageText s) (_shadow s)
    (_shadowSides s) v (_bubbleCorners s) (_bubbleShadowBottomRight s)
    (_bubbleShadow s) (_localShiftLeft s) (_bubbleTail s) (_replyBar s)
    (_name s) (_reply s) (_message s) (_content s) (_bubble s) (_userpic s)
    (_inner s) (_outer s) (_minOuterSize s) (_maxOuterSize s) (_layer s)
    (_canvas s) (_cursor s) (_canvasCornerMasks s) (_userpicOriginal s)
    (_userpicImage s) (_scale s) (_ratio s) (_window s) (_shownAnimation s)
    (_shown s) (_filter s) (effects s).
Definition set_bubbleCorners (v : Array4 QImage) (s : Preview) : Preview :=
  mkPreview (_widget s) (_theme s) (_nameStyle s) (_nameText s)
    (_textStyle s) (_replyText s) (_messageText s) (_shadow s)
    (_shadowSides s) (_shadowCorners s) v (_bubbleShadowBottomRight s)
    (_bubbleShadow s) (_localShiftLeft s) (_bubbleTail s) (_replyBar s)
    (_name s) (_reply s) (_message s) (_content s) (_bubble s) (_userpic s)
    (_inner s) (_outer s) (_minOuterSize s) (_maxOuterSize s) (_layer s)
    (_canvas s) (_cursor s) (_canvasCornerMasks s) (_userpicOriginal s)
    (_userpicImage s) (_scale s) (_ratio s) (_window s) (_shownAnimation s)
    (_shown s) (_filter s) (effects s).
Definition set_bubbleShadowBottomRight (v : QImage) (s : Preview) : Preview :=
  mkPreview (_widget s) (_theme s) (_nameStyle s) (_nameText s)
    (_textStyle s) (_replyText s) (_messageText s) (_shadow s)
    (_shadowSides s) (_shadowCorners s) (_bubbleCorners s) v
    (_bubbleShadow s) (_localShiftLeft s) (_bubbleTail s) (_replyBar s)
    (_name s) (_reply s) (_message s) (_content s) (_bubble s) (_userpic s)
    (_inner s) (_outer s) (_minOuterSize s) (_maxOuterSize s) (_layer s)
    (_canvas s) (_cursor s) (_canvasCornerMasks s) (_userpicOriginal s)
    (_userpicImage s) (_scale s) (_ratio s) (_window s) (_shownAnimation s)
    (_shown s) (_filter s) (effects s).
Definition set_bubbleShadow (v : Z) (s : Preview) : Preview :=
  mkPreview (_widget s) (_theme s) (_nameStyle s) (_nameText s)
    (_textStyle s) (_replyText s) (_messageText s) (_shadow s)
    (_shadowSides s) (_shadowCorners s) (_bubbleCorners s)
    (_bubbleShadowBottomRight s) v (_localShiftLeft s) (_bubbleTail s)
    (_replyBar s) (_name s) (_reply s) (_message s) (_content s) (_bubble s)
    (_userpic s) (_inner s) (_outer s) (_minOuterSize s) (_maxOuterSize s)
    (_layer s) (_canvas s) (_cursor s) (_canvasCornerMasks s)
    (_userpicOriginal s) (_userpicImage s) (_scale s) (_ratio s) (_window s)
    (_shownAnimation s) (_shown s) (_filter s) (effects s).
Definition set_localShiftLeft (v : Z) (s : Preview) : Preview :=
  mkPreview (_widget s) (_theme s) (_nameStyle s) (_nameText s)
    (_textStyle s) (_replyText s) (_messageText s) (_shadow s)
    (_shadowSides s) (_shadowCorners s) (_bubbleCorners s)
    (_bubbleShadowBottomRight s) (_bubbleShadow s) v (_bubbleTail s)
    (_replyBar s) (_name s) (_reply s) (_message s) (_content s) (_bubble s)
    (_userpic s) (_inner s) (_outer s) (_minOuterSize s) (_maxOuterSize s)
    (_layer s) (_canvas s) (_cursor s) (_canvasCornerMasks s)
    (_userpicOriginal s) (_userpicImage s) (_scale s) (_ratio s) (_window s)
    (_shownAnimation s) (_shown s) (_filter s) (effects s).
Definition set_bubbleTail (v : QImage) (s : Preview) : Preview :=
  mkPreview (_widget s) (_theme s) (_nameStyle s) (_nameText s)
    (_textStyle s) (_replyText s) (_messageText s) (_shadow s)
    (_shadowSides s) (_shadowCorners s) (_bubbleCorners s)
    (_bubbleShadowBottomRight s) (_bubbleShadow s) (_localShiftLeft s) v
    (_replyBar s) (_name s) (_reply s) (_message s) (_content s) (_bubble s)
    (_userpic s) (_inner s) (_outer s) (_minOuterSize s) (_maxOuterSize s)
    (_layer s) (_canvas s) (_cursor s) (_canvasCornerMasks s)
    (_userpicOriginal s) (_userpicImage s) (_scale s) (_ratio s) (_window s)
    (_shownAnimation s) (_shown s) (_filter s) (effects s).
Definition set_replyBar (v : QRect) (s : Preview) : Preview :=
  mkPreview (_widget s) (_theme s) (_nameStyle s) (_nameText s)
    (_textStyle s) (_replyText s) (_messageText s) (_shadow s)
    (_shadowSides s) (_shadowCorners s) (_bubbleCorners s)
    (_bubbleShadowBottomRight s) (_bubbleShadow s) (_localShiftLeft s)
    (_bubbleTail s) v (_name s) (_reply s) (_message s) (_content s)
    (_bubble s) (_userpic s) (_inner s) (_outer s) (_minOuterSize s)
    (_maxOuterSize s) (_layer s) (_canvas s) (_cursor s)
    (_canvasCornerMasks s) (_userpicOriginal s) (_userpicImage s) (_scale s)
    (_ratio s) (_window s) (_shownAnimation s) (_shown s) (_filter s)
    (effects s).
Definition set_name (v : QRect) (s : Preview) : Preview :=
  mkPreview (_widget s) (_theme s) (_nameStyle s) (_nameText s)
    (_textStyle s) (_replyText s) (_messageText s) (_shadow s)
    (_shadowSides s) (_shadowCorners s) (_bubbleCorners s)
    (_bubbleShadowBottomRight s) (_bubbleShadow s) (_localShiftLeft s)
    (_bubbleTail s) (_replyBar s) v (_reply s) (_message s) (_content s)
    (_bubble s) (_userpic s) (_inner s) (_outer s) (_minOuterSize s)
    (_maxOuterSize s) (_layer s) (_canvas s) (_cursor s)
    (_canvasCornerMasks s) (_userpicOriginal s) (_userpicImage s) (_scale s)
    (_ratio s) (_window s) (_shownAnimation s) (_shown s) (_filter s)
    (effects s).
Definition set_reply (v : QRect) (s : Preview) : Preview :=
  mkPreview (_widget s) (_theme s) (_nameStyle s) (_nameText s)
    (_textStyle s) (_replyText s) (_messageText s) (_shadow s)
    (_shadowSides s) (_shadowCorners s) (_bubbleCorners s)
    (_bubbleShadowBottomRight s) (_bubbleShadow s) (_localShiftLeft s)
    (_bubbleTail s) (_replyBar s) (_name s) v (_message s) (_content s)
    (_bubble s) (_userpic s) (_inner s) (_outer s) (_minOuterSize s)
    (_maxOuterSize s) (_layer s) (_canvas s) (_cursor s)
    (_canvasCornerMasks s) (_userpicOriginal s) (_userpicImage s) (_scale s)
    (_ratio s) (_window s) (_shownAnimation s) (_shown s) (_filter s)
    (effects s).
Definition set_message (v : QRect) (s : Preview) : Preview :=
  mkPreview (_widget s) (_theme s) (_nameStyle s) (_nameText s)
    (_textStyle s) (_replyText s) (_messageText s) (_shadow s)
    (_shadowSides s) (_shadowCorners s) (_bubbleCorners s)
    (_bubbleShadowBottomRight s) (_bubbleShadow s) (_localShiftLeft s)
    (_bubbleTail s) (_replyBar s) (_name s) (_reply s) v (_content s)
    (_bubble s) (_userpic s) (_inner s) (_outer s) (_minOuterSize s)
    (_maxOuterSize s) (_layer s) (_canvas s) (_cursor s)
    (_canvasCornerMasks s) (_userpicOriginal s) (_userpicImage s) (_scale s)
    (_ratio s) (_window s) (_shownAnimation s) (_shown s) (_filter s)
    (effects s).
Definition set_content (v : QRect) (s : Preview) : Preview :=
  mkPreview (_widget s) (_theme s) (_nameStyle s) (_nameText s)
    (_textStyle s) (_replyText s) (_messageText s) (_shadow s)
    (_shadowSides s) (_shadowCorners s) (_bubbleCorners s)
    (_bubbleShadowBottomRight s) (_bubbleShadow s) (_localShiftLeft s)
    (_bubbleTail s) (_replyBar s) (_name s) (_reply s) (_message s) v
    (_bubble s) (_userpic s) (_inner s) (_outer s) (_minOuterSize s)
    (_maxOuterSize s) (_layer s) (_canvas s) (_cursor s)
    (_canvasCornerMasks s) (_userpicOriginal s) (_userpicImage s) (_scale s)
    (_ratio s) (_window s) (_shownAnimation s) (_shown s) (_filter s)
    (effects s).
Definition set_bubble (v : QRect) (s : Preview) : Preview :=
  mkPreview (_widget s) (_theme s) (_nameStyle s) (_nameText s)
    (_textStyle s) (_replyText s) (_messageText s) (_shadow s)
    (_shadowSides s) (_shadowCorners s) (_bubbleCorners s)
    (_bubbleShadowBottomRight s) (_bubbleShadow s) (_localShiftLeft s)
    (_bubbleTail s) (_replyBar s) (_name s) (_reply s) (_message s)
    (_content s) v (_userpic s) (_inner s) (_outer s) (_minOuterSize s)
    (_maxOuterSize s) (_layer s) (_canvas s) (_cursor s)
    (_canvasCornerMasks s) (_userpicOriginal s) (_userpicImage s) (_scale s)
    (_ratio s) (_window s) (_shownAnimation s) (_shown s) (_filter s)
    (effects s).
Definition set_userpic (v : QRect) (s : Preview) : Preview :=
  mkPreview (_widget s) (_theme s) (_nameStyle s) (_nameText s)
    (_textStyle s) (_replyText s) (_messageText s) (_shadow s)
    (_shadowSides s) (_shadowCorners s) (_bubbleCorners s)
    (_bubbleShadowBottomRight s) (_bubbleShadow s) (_localShiftLeft s)
    (_bubbleTail s) (_replyBar s) (_name s) (_reply s) (_message s)
    (_content s) (_bubble s) v (_inner s) (_outer s) (_minOuterSize s)
    (_maxOuterSize s) (_layer s) (_canvas s) (_cursor s)
    (_canvasCornerMasks s) (_userpicOriginal s) (_userpicImage s) (_scale s)
    (_ratio s) (_window s) (_shownAnimation s) (_shown s) (_filter s)
    (effects s).
Definition set_inner (v : QRect) (s : Preview) : Preview :=
  mkPreview (_widget s) (_theme s) (_nameStyle s) (_nameText s)
    (_textStyle s) (_replyText s) (_messageText s) (_shadow s)
    (_shadowSides s) (_shadowCorners s) (_bubbleCorners s)
    (_bubbleShadowBottomRight s) (_bubbleShadow s) (_localShiftLeft s)
    (_bubbleTail s) (_replyBar s) (_name s) (_reply s) (_message s)
    (_content s) (_bubble s) (_userpic s) v (_outer s) (_minOuterSize s)
    (_maxOuterSize s) (_layer s) (_canvas s) (_cursor s)
    (_canvasCornerMasks s) (_userpicOriginal s) (_userpicImage s) (_scale s)
    (_ratio s) (_window s) (_shownAnimation s) (_shown s) (_filter s)
    (effects s).
Definition set_outer (v : QRect) (s : Preview) : Preview :=
  mkPreview (_widget s) (_theme s) (_nameStyle s) (_nameText s)
    (_textStyle s) (_replyText s) (_messageText s) (_shadow s)
    (_shadowSides s) (_shadowCorners s) (_bubbleCorners s)
    (_bubbleShadowBottomRight s) (_bubbleShadow s) (_localShiftLeft s)
    (_bubbleTail s) (_replyBar s) (_name s) (_reply s) (_message s)
    (_content s) (_bubble s) (_userpic s) (_inner s) v (_minOuterSize s)
    (_maxOuterSize s) (_layer s) (_canvas s) (_cursor s)
    (_canvasCornerMasks s) (_userpicOriginal s) (_userpicImage s) (_scale s)
    (_ratio s) (_window s) (_shownAnimation s) (_shown s) (_filter s)
    (effects s).
Definition set_minOuterSize (v : QSize) (s : Preview) : Preview :=
  mkPreview (_widget s) (_theme s) (_nameStyle s) (_nameText s)
    (_textStyle s) (_replyText s) (_messageText s) (_shadow s)
    (_shadowSides s) (_shadowCorners s) (_bubbleCorners s)
    (_bubbleShadowBottomRight s) (_bubbleShadow s) (_localShiftLeft s)
    (_bubbleTail s) (_replyBar s) (_name s) (_reply s) (_message s)
    (_content s) (_bubble s) (_userpic s) (_inner s) (_outer s) v
    (_maxOuterSize s) (_layer s) (_canvas s) (_cursor s)
    (_canvasCornerMasks s) (_userpicOriginal s) (_userpicImage s) (_scale s)
    (_ratio s) (_window s) (_shownAnimation s) (_shown s) (_filter s)
    (effects s).
Definition set_maxOuterSize (v : QSize) (s : Preview) : Preview :=
  mkPreview (_widget s) (_theme s) (_nameStyle s) (_nameText s)
    (_textStyle s) (_replyText s) (_messageText s) (_shadow s)
    (_shadowSides s) (_shadowCorners s) (_bubbleCorners s)
    (_bubbleShadowBottomRight s) (_bubbleShadow s) (_localShiftLeft s)
    (_bubbleTail s) (_replyBar s) (_name s) (_reply s) (_message s)
    (_content s) (_bubble s) (_userpic s) (_inner s) (_outer s)
    (_minOuterSize s) v (_layer s) (_canvas s) (_cursor s)
    (_canvasCornerMasks s) (_userpicOriginal s) (_userpicImage s) (_scale s)
    (_ratio s) (_window s) (_shownAnimation s) (_shown s) (_filter s)
    (effects s).
Definition set_layer (v : QImage) (s : Preview) : Preview :=
  mkPreview (_widget s) (_theme s) (_nameStyle s) (_nameText s)
    (_textStyle s) (_replyText s) (_messageText s) (_shadow s)
    (_shadowSides s) (_shadowCorners s) (_bubbleCorners s)
    (_bubbleShadowBottomRight s) (_bubbleShadow s) (_localShiftLeft s)
    (_bubbleTail s) (_replyBar s) (_name s) (_reply s) (_message s)
    (_content s) (_bubble s) (_userpic s) (_inner s) (_outer s)
    (_minOuterSize s) (_maxOuterSize s) v (_canvas s) (_cursor s)
    (_canvasCornerMasks s) (_userpicOriginal s) (_userpicImage s) (_scale s)
    (_ratio s) (_window s) (_shownAnimation s) (_shown s) (_filter s)
    (effects s).
Definition set_canvas (v : QImage) (s : Preview) : Preview :=
  mkPreview (_widget s) (_theme s) (_nameStyle s) (_nameText s)
    (_textStyle s) (_replyText s) (_messageText s) (_shadow s)
    (_shadowSides s) (_shadowCorners s) (_bubbleCorners s)
    (_bubbleShadowBottomRight s) (_bubbleShadow s) (_localShiftLeft s)
    (_bubbleTail s) (_replyBar s) (_name s) (_reply s) (_message s)
    (_content s) (_bubble s) (_userpic s) (_inner s) (_outer s)
    (_minOuterSize s) (_maxOuterSize s) (_layer s) v (_cursor s)
    (_canvasCornerMasks s) (_userpicOriginal s) (_userpicImage s) (_scale s)
    (_ratio s) (_window s) (_shownAnimation s) (_shown s) (_filter s)
    (effects s).
Definition set_cursor (v : QPoint) (s : Preview) : Preview :=
  mkPreview (_widget s) (_theme s) (_nameStyle s) (_nameText s)
    (_textStyle s) (_replyText s) (_messageText s) (_shadow s)
    (_shadowSides s) (_shadowCorners s) (_bubbleCorners s)
    (_bubbleShadowBottomRight s) (_bubbleShadow s) (_localShiftLeft s)
    (_bubbleTail s) (_replyBar s) (_name s) (_reply s) (_message s)
    (_content s) (_bubble s) (_userpic s) (_inner s) (_outer s)
    (_minOuterSize s) (_maxOuterSize s) (_layer s) (_canvas s) v
    (_canvasCornerMasks s) (_userpicOriginal s) (_userpicImage s) (_scale s)
    (_ratio s) (_window s) (_shownAnimation s) (_shown s) (_filter s)
    (effects s).
Definition set_canvasCornerMasks (v : Array4 QImage) (s : Preview) : Preview :=
  mkPreview (_widget s) (_theme s) (_nameStyle s) (_nameText s)
    (_textStyle s) (_replyText s) (_messageText s) (_shadow s)
    (_shadowSides s) (_shadowCorners s) (_bubbleCorners s)
    (_bubbleShadowBottomRight s) (_bubbleShadow s) (_localShiftLeft s)
    (_bubbleTail s) (_replyBar s) (_name s) (_reply s) (_message s)
    (_content s) (_bubble s) (_userpic s) (_inner s) (_outer s)
    (_minOuterSize s) (_maxOuterSize s) (_layer s) (_canvas s) (_cursor s) v
    (_userpicOriginal s) (_userpicImage s) (_scale s) (_ratio s) (_window s)
    (_shownAnimation s) (_shown s) (_filter s) (effects s).
Definition set_userpicOriginal (v : QImage) (s : Preview) : Preview :=
  mkPreview (_widget s) (_theme s) (_nameStyle s) (_nameText s)
    (_textStyle s) (_replyText s) (_messageText s) (_shadow s)
    (_shadowSides s) (_shadowCorners s) (_bubbleCorners s)
    (_bubbleShadowBottomRight s) (_bubbleShadow s) (_localShiftLeft s)
    (_bubbleTail s) (_replyBar s) (_name s) (_reply s) (_message s)
    (_content s) (_bubble s) (_userpic s) (_inner s) (_outer s)
    (_minOuterSize s) (_maxOuterSize s) (_layer s) (_canvas s) (_cursor s)
    (_canvasCornerMasks s) v (_userpicImage s) (_scale s) (_ratio s)
    (_window s) (_shownAnimation s) (_shown s) (_filter s) (effects s).
Definition set_userpicImage (v : QImage) (s : Preview) : Preview :=
  mkPreview (_widget s) (_theme s) (_nameStyle s) (_nameText s)
    (_textStyle s) (_replyText s) (_messageText s) (_shadow s)
    (_shadowSides s) (_shadowCorners s) (_bubbleCorners s)
    (_bubbleShadowBottomRight s) (_bubbleShadow s) (_localShiftLeft s)
    (_bubbleTail s) (_replyBar s) (_name s) (_reply s) (_message s)
    (_content s) (_bubble s) (_userpic s) (_inner s) (_outer s)
    (_minOuterSize s) (_maxOuterSize s) (_layer s) (_canvas s) (_cursor s)
    (_canvasCornerMasks s) (_userpicOriginal s) v (_scale s) (_ratio s)
    (_window s) (_shownAnimation s) (_shown s) (_filter s) (effects s).
Definition set_scale (v : Z) (s : Preview) : Preview :=
  mkPreview (_widget s) (_theme s) (_nameStyle s) (_nameText s)
    (_textStyle s) (_replyText s) (_messageText s) (_shadow s)
    (_shadowSides s) (_shadowCorners s) (_bubbleCorners s)
    (_bubbleShadowBottomRight s) (_bubbleShadow s) (_localShiftLeft s)
    (_bubbleTail s) (_replyBar s) (_name s) (_reply s) (_message s)
    (_content s) (_bubble s) (_userpic s) (_inner s) (_outer s)
    (_minOuterSize s) (_maxOuterSize s) (_layer s) (_canvas s) (_cursor s)
    (_canvasCornerMasks s) (_userpicOriginal s) (_userpicImage s) v
    (_ratio s) (_window s) (_shownAnimation s) (_shown s) (_filter s)
    (effects s).
Definition set_ratio (v : Z) (s : Preview) : Preview :=
  mkPreview (_widget s) (_theme s) (_nameStyle s) (_nameText s)
    (_textStyle s) (_replyText s) (_messageText s) (_shadow s)
    (_shadowSides s) (_shadowCorners s) (_bubbleCorners s)
    (_bubbleShadowBottomRight s) (_bubbleShadow s) (_localShiftLeft s)
    (_bubbleTail s) (_replyBar s) (_name s) (_reply s) (_message s)
    (_content s) (_bubble s) (_userpic s) (_inner s) (_outer s)
    (_minOuterSize s) (_maxOuterSize s) (_layer s) (_canvas s) (_cursor s)
    (_canvasCornerMasks s) (_userpicOriginal s) (_userpicImage s) (_scale s)
    v (_window s) (_shownAnimation s) (_shown s) (_filter s) (effects s).
Definition set_window (v : bool) (s : Preview) : Preview :=
  mkPreview (_widget s) (_theme s) (_nameStyle s) (_nameText s)
    (_textStyle s) (_replyText s) (_messageText s) (_shadow s)
    (_shadowSides s) (_shadowCorners s) (_bubbleCorners s)
    (_bubbleShadowBottomRight s) (_bubbleShadow s) (_localShiftLeft s)
    (_bubbleTail s) (_replyBar s) (_name s) (_reply s) (_message s)
    (_content s) (_bubble s) (_userpic s) (_inner s) (_outer s)
    (_minOuterSize s) (_maxOuterSize s) (_layer s) (_canvas s) (_cursor s)
    (_canvasCornerMasks s) (_userpicOriginal s) (_userpicImage s) (_scale s)
    (_ratio s) v (_shownAnimation s) (_shown s) (_filter s) (effects s).
Definition set_shownAnimation (v : Simple) (s : Preview) : Preview :=
  mkPreview (_widget s) (_theme s) (_nameStyle s) (_nameText s)
    (_textStyle s) (_replyText s) (_messageText s) (_shadow s)
    (_shadowSides s) (_shadowCorners s) (_bubbleCorners s)
    (_bubbleShadowBottomRight s) (_bubbleShadow s) (_localShiftLeft s)
    (_bubbleTail s) (_replyBar s) (_name s) (_reply s) (_message s)
    (_content s) (_bubble s) (_userpic s) (_inner s) (_outer s)
    (_minOuterSize s) (_maxOuterSize s) (_layer s) (_canvas s) (_cursor s)
    (_canvasCornerMasks s) (_userpicOriginal s) (_userpicImage s) (_scale s)
    (_ratio s) (_window s) v (_shown s) (_filter s) (effects s).
Definition set_shown (v : bool) (s : Preview) : Preview :=
  mkPreview (_widget s) (_theme s) (_nameStyle s) (_nameText s)
    (_textStyle s) (_replyText s) (_messageText s) (_shadow s)
    (_shadowSides s) (_shadowCorners s) (_bubbleCorners s)
    (_bubbleShadowBottomRight s) (_bubbleShadow s) (_localShiftLeft s)
    (_bubbleTail s) (_replyBar s) (_name s) (_reply s) (_message s)
    (_content s) (_bubble s) (_userpic s) (_inner s) (_outer s)
    (_minOuterSize s) (_maxOuterSize s) (_layer s) (_canvas s) (_cursor s)
    (_canvasCornerMasks s) (_userpicOriginal s) (_userpicImage s) (_scale s)
    (_ratio s) (_window s) (_shownAnimation s) v (_filter s) (effects s).
Definition set_filter (v : option (list WidgetId)) (s : Preview) : Preview :=
  mkPreview (_widget s) (_theme s) (_nameStyle s) (_nameText s)
    (_textStyle s) (_replyText s) (_messageText s) (_shadow s)
    (_shadowSides s) (_shadowCorners s) (_bubbleCorners s)
    (_bubbleShadowBottomRight s) (_bubbleShadow s) (_localShiftLeft s)
    (_bubbleTail s) (_replyBar s) (_name s) (_reply s) (_message s)
    (_content s) (_bubble s) (_userpic s) (_inner s) (_outer s)
    (_minOuterSize s) (_maxOuterSize s) (_layer s) (_canvas s) (_cursor s)
    (_canvasCornerMasks s) (_userpicOriginal s) (_userpicImage s) (_scale s)
    (_ratio s) (_window s) (_shownAnimation s) (_shown s) v (effects s).
Definition set_effects (v : list Effect) (s : Preview) : Preview :=
  mkPreview (_widget s) (_theme s) (_nameStyle s) (_nameText s)
    (_textStyle s) (_replyText s) (_messageText s) (_shadow s)
    (_shadowSides s) (_shadowCorners s) (_bubbleCorners s)
    (_bubbleShadowBottomRight s) (_bubbleShadow s) (_localShiftLeft s)
    (_bubbleTail s) (_replyBar s) (_name s) (_reply s) (_message s)
    (_content s) (_bubble s) (_userpic s) (_inner s) (_outer s)
    (_minOuterSize s) (_maxOuterSize s) (_layer s) (_canvas s) (_cursor s)
    (_canvasCornerMasks s) (_userpicOriginal s) (_userpicImage s) (_scale s)
    (_ratio s) (_window s) (_shownAnimation s) (_shown s) (_filter s) v.

Definition kMinTextWidth : Z := 120.
Definition kMaxTextWidth : Z := 320.
Definition kMaxTextLines : Z := 3.

Definition Images_Round (img : QImage) (masks : Array4 QImage) : QImage :=
  Rounded img (a0 masks) (a1 masks) (a2 masks) (a3 masks).

(** ** Pointers that may be null *)

(** A call either returns or dereferences a null pointer. *)
Inductive Outcome (A : Type) :=
| Returned (a : A)
| NullDereference.
Arguments Returned {A}.
Arguments NullDereference {A}.

(** Member access [p->...] through a pointer that may be null. *)
Definition arrow {A B : Type} (p : option A) (k : A -> Outcome B)
    : Outcome B :=
  match p with
  | Some a => k a
  | None => NullDereference
  end.

Definition ToggleFn : Type :=
  World -> ScalePreviewShow -> Z -> Z -> Preview -> Preview.

(** A producer is the list of values it hands over while it is being
    subscribed to; the values that come later are events of their own.  A
    producer built from [nullptr] hands over nothing. *)
Definition nullptr_producer : list QImage := [].

Section Methods.

Variable E : Externals.

Definition UseSeparateWindow : bool :=
  negb (IsWayland E) && TranslucentWindowsSupported E.

(** *** Calls on [_widget] and on [_shownAnimation] *)

Definition add_effect (e : Effect) (s : Preview) : Preview :=
  set_effects (e :: effects s) s.

Definition widget_show (s : Preview) : Preview :=
  let w := _widget s in
  add_effect WidgetShow
    (set_widget (mkWidget (widget_geometry w) false (widget_settings w)) s).

Definition widget_hide (s : Preview) : Preview :=
  let w := _widget s in
  add_effect WidgetHide
    (set_widget (mkWidget (widget_geometry w) true (widget_settings w)) s).

Definition widget_setGeometry (r : QRect) (s : Preview) : Preview :=
  let w := _widget s in
  add_effect (WidgetSetGeometry r)
    (set_widget (mkWidget r (widget_hidden w) (widget_settings w)) s).

Definition widget_configure (c : WidgetSetting) (s : Preview) : Preview :=
  let w := _widget s in
  set_widget
    (mkWidget (widget_geometry w) (widget_hidden w) (widget_settings w ++ [c]))
    s.

Definition animation_start (from to : Q) (s : Preview) : Preview :=
  add_effect (AnimationStart from to (slideWrapDuration E))
    (set_shownAnimation
       (Simple_start from to (slideWrapDuration E) (_shownAnimation s)) s).

Definition animation_stop (s : Preview) : Preview :=
  add_effect AnimationStop
    (set_shownAnimation (Simple_stop (_shownAnimation s)) s).

(** *** [Preview::update] *)

Definition update (s : Preview) : Preview :=
  add_effect (WidgetUpdate (_outer s)) s.

(** *** [Preview::scaled], all overloads *)

Definition scaled (s : Preview) (value : Z) : Z :=
  ConvertScale E value (_scale s).

Definition scaled_point (s : Preview) (value : QPoint) : QPoint :=
  mkPoint (scaled s (point_x value)) (scaled s (point_y value)).

Definition scaled_size (s : Preview) (value : QSize) : QSize :=
  mkSize (scaled s (size_width value)) (scaled s (size_height value)).

Definition scaled_rect (s : Preview) (value : QRect) : QRect :=
  QRect_of (scaled_point s (topLeft value)) (scaled_size s (rect_size value)).

Definition scaled_margins (s : Preview) (value : QMargins) : QMargins :=
  mkMargins (scaled s (margins_left value)) (scaled s (margins_top value))
            (scaled s (margins_right value)) (scaled s (margins_bottom value)).

Definition scaled_font (s : Preview) (f : font) (size : Z) : font :=
  mkFont (scaled s size) (font_flags f) (font_family f).

(** The [lineHeight] argument is not used by the source: the line height of
    the result is the scaled line height of [value]. *)
Definition scaled_style (s : Preview) (value : TextStyle)
    (fontSize lineHeight : Z) : TextStyle :=
  mkTextStyle (scaled_font s (style_font value) fontSize)
              (scaled_font s (style_linkFont value) fontSize)
              (scaled_font s (style_linkFontOver value) fontSize)
              (scaled s (style_lineHeight value)).

Definition scaled_icon (s : Preview) (icon : Icon) (color : Color) : QImage :=
  IconInstance icon color (_scale s).

(** *** [Preview::updateToScale]

    The statements that follow the early return of the method. *)

Definition updateToScale_recompute (scale : Z) (s : Preview) : Preview :=
  let s := set_scale scale s in
  let s := set_nameStyle (scaled_style s (_nameStyle s) 13 0) s in
  let s := set_textStyle (scaled_style s (_textStyle s) 13 0) s in
  let s := set_nameText
    (setText (_nameStyle s) "Bob Harris" NameTextOptions (_nameText s)) s in
  let s := set_replyText
    (setText (_textStyle s) "Good morning!" ItemTextDefaultOptions
       (_replyText s)) s in
  let s := set_messageText
    (setText (_textStyle s) "Do you know what time it is?"
       ItemTextDefaultOptions (_messageText s)) s in

  let s := set_replyBar
    (mkRect (scaled s 1) (scaled s 6 + 0) (scaled s 2) (scaled s 36)) s in
  let namePosition := mkPoint (scaled s 10) (scaled s 6) in
  let replyPosition :=
    mkPoint (scaled s 10)
            (scaled s 6 + font_height E (style_font (_nameStyle s))) in

  let wantedWidth :=
    Z.max (Z.max (point_x namePosition + maxWidth E (_nameText s))
                 (point_x replyPosition + maxWidth E (_replyText s)))
          (maxWidth E (_messageText s)) in

  let minTextWidth := scaled s kMinTextWidth in
  let maxTextWidth := scaled s kMaxTextWidth in
  let messageWidth := clamp wantedWidth minTextWidth maxTextWidth in
  let messageHeight :=
    Z.min (countHeight E (_messageText s) maxTextWidth)
          (kMaxTextLines * font_height E (style_font (_textStyle s))) in

  let s := set_name
    (QRect_of namePosition
       (mkSize (messageWidth - point_x namePosition)
               (font_height E (style_font (_nameStyle s))))) s in
  let s := set_reply
    (QRect_of replyPosition
       (mkSize (messageWidth - point_x replyPosition)
               (font_height E (style_font (_textStyle s))))) s in
  let s := set_message (mkRect 0 0 messageWidth messageHeight) s in

  let replySkip :=
    rect_y (_replyBar s) + rect_height (_replyBar s) + scaled s 6 in
  let s := set_message (moveTop (_message s) replySkip) s in

  let s := set_content
    (mkRect 0 0 messageWidth (replySkip + messageHeight)) s in

  let msgPadding := scaled_margins s (mkMargins 13 7 13 8) in
  let s := set_bubble (marginsAdded (_content s) msgPadding) s in
  let s := set_content
    (moveTopLeft (_content s) (point_neg (topLeft (_bubble s)))) s in
  let s := set_bubble (moveTopLeft (_bubble s) point_origin) s in
  let s := set_bubbleShadow (scaled s 2) s in
  let s := set_bubbleCorners null_images s in
  let s := set_bubbleTail NullImage s in
  let s := set_bubbleShadowBottomRight NullImage s in

  let hasUserpic := negb (isNull (_userpicOriginal s)) in
  let bubbleMargin := scaled_margins s (mkMargins 20 16 20 16) in
  let userpicSkip := if hasUserpic then scaled s 40 else 0 in
  let s := set_inner
    (marginsAdded (_bubble s)
       (margins_add bubbleMargin (mkMargins userpicSkip 0 0 0))) s in
  let s := set_bubble
    (moveTopLeft (_bubble s) (point_neg (topLeft (_inner s)))) s in
  let s := set_inner (moveTopLeft (_inner s) point_origin) s in
  let s :=
    if hasUserpic then
      let userpicSize := scaled s 33 in
      let s := set_userpic
        (mkRect (margins_left bubbleMargin)
                (rect_y (_bubble s) + rect_height (_bubble s) - userpicSize)
                userpicSize userpicSize) s in
      set_userpicImage NullImage s
    else s in

  let s := set_shadow (mkShadow (scaled_margins s (mkMargins 9 8 9 10))) s in
  let s := set_shadowSides null_images s in
  let s := set_shadowCorners null_images s in

  let s := update s in
  let s := set_outer (marginsAdded (_inner s) (shadow_extend (_shadow s))) s in
  let s := set_inner
    (moveTopLeft (_inner s) (point_neg (topLeft (_outer s)))) s in
  let s := set_outer (moveTopLeft (_outer s) point_origin) s in

  let s := set_layer
    (Buffer (size_mul (rect_size (_outer s)) (_ratio s)) (_ratio s)) s in
  let s := set_canvas
    (Buffer (size_mul (rect_size (_inner s)) (_ratio s)) (_ratio s)) s in

  set_canvasCornerMasks (CornersMask (scaled s 6)) s.

Definition updateToScale (scale : Z) (s : Preview) : Preview :=
  if _scale s =? scale then s else updateToScale_recompute scale s.

(** *** Positioning *)

Definition updateOuterPosition (globalX : Z) (s : Preview) : Preview :=
  if _window s then
    let s := update s in
    let global := widget_geometry (_widget s) in
    let desiredLeft :=
      globalX - Z.quot (rect_width (_outer s)) 2 - rect_x global in
    let s := set_outer
      (moveLeft (_outer s)
         (Z.max (Z.min desiredLeft
                       (rect_width global - rect_width (_outer s)))
                0)) s in
    let s := set_outer
      (moveTop (_outer s)
         (size_height (_maxOuterSize s) - rect_height (_outer s))) s in
    update s
  else s.

Definition adjustByScreenGeometry (W : World) (geometry : QRect)
    (s : Preview) : QRect :=
  match parent_screen W with
  | None => geometry
  | Some screenGeometry =>
      if negb (intersects screenGeometry geometry)
         || (rect_width screenGeometry <? size_width (_maxOuterSize s))
         || (rect_height screenGeometry <? size_height (_maxOuterSize s))
      then geometry else
      let edgeLeft := rect_x screenGeometry in
      let edgeRight := rect_x screenGeometry + rect_width screenGeometry in
      let edgedRight :=
        Z.min edgeRight (rect_x geometry + rect_width geometry) in
      let left :=
        Z.max (Z.min (rect_x geometry)
                     (edgedRight - size_width (_maxOuterSize s)))
              edgeLeft in
      let right := Z.max edgedRight (left + size_width (_maxOuterSize s)) in
      mkRect left (rect_y geometry) (right - left) (rect_height geometry)
  end.

Definition updateWindowGlobalPosition (W : World) (global : QPoint)
    (globalX : Z) (s : Preview) : Preview :=
  let desiredLeft := point_x global - Z.quot (size_width (_minOuterSize s)) 2 in
  let desiredRight :=
    point_x global + parent_width W
    + Z.quot (size_width (_maxOuterSize s)) 2 in
  let requiredLeft := desiredRight - size_width (_maxOuterSize s) in
  let left := Z.min desiredLeft requiredLeft in
  let requiredRight := left + size_width (_maxOuterSize s) in
  let right := Z.max desiredRight requiredRight in
  let top := point_y global - size_height (_maxOuterSize s) in
  let result :=
    mkRect left top (right - left) (size_height (_maxOuterSize s)) in
  let s := widget_setGeometry (adjustByScreenGeometry W result s) s in
  updateOuterPosition globalX s.

(** [updateGlobalPosition(int globalX)].  In the embedded branch the
    initializer of [position] ends at [parent->pos();] and the two lines
    that follow it form an expression statement of their own, whose value
    is dropped. *)
Definition updateGlobalPosition (W : World) (globalX : Z)
    (s : Preview) : Preview :=
  if _window s then
    let global := parent_global W in
    let s := set_localShiftLeft (globalX - point_x global) s in
    updateWindowGlobalPosition W global globalX s
  else
    let position := parent_pos W in
    let _ :=
      point_sub (mkPoint (Z.quot (parent_width W) 2) 0)
                (mkPoint (Z.quot (rect_width (_outer s)) 2)
                         (rect_height (_outer s))) in
    let s := widget_setGeometry (QRect_of position (rect_size (_outer s))) s in
    updateOuterPosition globalX s.

(** [updateGlobalPosition()], the overload run by the event filter. *)
Definition updateGlobalPosition_filter (W : World) (s : Preview) : Preview :=
  let global := parent_global W in
  updateWindowGlobalPosition W global
    (point_x global + _localShiftLeft s) s.

(** *** Visibility *)

(** The recursive [watch] lambda of [toggleFilter]: the widgets an event
    filter is installed on, walking up from the parent. *)
Fixpoint watch (window : bool) (top : WidgetId) (chain : list WidgetId)
    : list WidgetId :=
  match chain with
  | [] => []
  | widget :: parents =>
      widget :: (if negb window && (widget =? top) then []
                 else watch window top parents)
  end.

Definition toggleFilter (W : World) (s : Preview) : Preview :=
  if negb (_shown s) then set_filter None s
  else match _filter s with
       | Some _ => s
       | None =>
           set_filter
             (Some (watch (_window s) (widget_window W) (parent_chain W))) s
       end.

(** The callback that [toggleShown] hands to the animation. *)
Definition shownCallback (s : Preview) : Preview :=
  let s := update s in
  if negb (_shown s) && negb (Simple_animating (_shownAnimation s))
  then widget_hide s
  else s.

Definition toggleShown (W : World) (shown : bool) (s : Preview) : Preview :=
  if Bool.eqb (_shown s) shown then s else
  let s := set_shown shown s in
  let s := toggleFilter W s in
  let start (s : Preview) :=
    animation_start (if shown then 0 else 1)%Q (if shown then 1 else 0)%Q s in
  if _shown s then start (widget_show s)
  else if widget_hidden (_widget s) then animation_stop s
  else start s.

(** [Preview::toggle] *)
Definition toggle (W : World) (show : ScalePreviewShow) (scale globalX : Z)
    (s : Preview) : Preview :=
  match show with
  | Hide => toggleShown W false s
  | _ =>
      if match show with Update => negb (_shown s) | _ => false end then s
      else
        let s := updateToScale scale s in
        let s := updateGlobalPosition W globalX s in
        let s :=
          if widget_hidden (_widget s) then add_effect UpdateOverlayed s
          else s in
        toggleShown W true s
  end.

(** *** Lazily validated caches *)

Definition validateUserpicCache (s : Preview) : Preview :=
  if negb (isNull (_userpicImage s))
     || isNull (_userpicOriginal s)
     || rect_isEmpty (_userpic s)
  then s
  else
    set_userpicImage
      (CircleImage (_userpicOriginal s)
         (size_mul (rect_size (_userpic s)) (_ratio s)) (_ratio s)) s.

Definition validateBubbleCache (s : Preview) : Preview :=
  if negb (isNull (a0 (_bubbleCorners s))) then s else
  let radius := scaled s 16 in
  let s := set_bubbleCorners (PrepareCornerPixmaps radius msgInBg) s in
  let c := _bubbleCorners s in
  let s := set_bubbleCorners (mkArray4 (a0 c) (a1 c) NullImage (a3 c)) s in
  let s := set_bubbleTail (scaled_icon s historyBubbleTailInLeft msgInBg) s in
  set_bubbleShadowBottomRight
    (a3 (PrepareCornerPixmaps radius msgInShadow)) s.

Definition validateShadowCache (s : Preview) : Preview :=
  if negb (isNull (a0 (_shadowSides s))) then s else
  let shadowColor := windowShadowFg in
  let s := set_shadowSides
    (mkArray4 (scaled_icon s callShadow_left shadowColor)
              (scaled_icon s callShadow_top shadowColor)
              (scaled_icon s callShadow_right shadowColor)
              (scaled_icon s callShadow_bottom shadowColor)) s in
  set_shadowCorners
    (mkArray4 (scaled_icon s callShadow_topLeft shadowColor)
              (scaled_icon s callShadow_bottomLeft shadowColor)
              (scaled_icon s callShadow_topRight shadowColor)
              (scaled_icon s callShadow_bottomRight shadowColor)) s.

(** *** Painting

    Every paint method takes the calls made so far on its painter and
    returns them extended, together with the object (whose caches the
    method may fill). *)

Definition paintMessage (p : list PaintOp) (clip : QRect) (s : Preview)
    : Preview * list PaintOp :=
  (s, p ++ [SetPen historyTextInFg;
            DrawLeftElided (_messageText s) 0 0
              (rect_width (_message s)) (rect_width (_message s))
              kMaxTextLines]).

Definition paintReply (p : list PaintOp) (clip : QRect) (s : Preview)
    : Preview * list PaintOp :=
  (s, p ++ [SetOpacity (kBarAlpha E);
            FillRect (_replyBar s) msgInReplyBarColor;
            SetOpacity 1%Q;
            SetPen msgInServiceFg;
            DrawLeftElided (_nameText s) (rect_x (_name s)) (rect_y (_name s))
              (rect_width (_name s)) (rect_width (_content s)) 1;
            SetPen historyTextInFg;
            DrawLeftElided (_replyText s) (rect_x (_reply s))
              (rect_y (_reply s)) (rect_width (_reply s))
              (rect_width (_content s)) 1]).

Definition paintContent (p : list PaintOp) (clip : QRect) (s : Preview)
    : Preview * list PaintOp :=
  let '(s, p) := paintReply p clip s in
  let message := intersected clip (_message s) in
  if rect_isEmpty message then (s, p) else
  let p := p ++ [Translate (rect_x (_message s)) (rect_y (_message s))] in
  let local := translated message (point_neg (topLeft (_message s))) in
  let p := p ++ [SetClipRect local] in
  paintMessage p local s.

Definition paintBubble (p : list PaintOp) (clip : QRect) (s : Preview)
    : Preview * list PaintOp :=
  let s := validateBubbleCache s in
  let bubble := QRect_of point_origin (rect_size (_bubble s)) in
  let cornerShadow := logicalSize E (_bubbleShadowBottomRight s) in
  let p := p ++ [DrawPixmap
                   (rect_width bubble - size_width cornerShadow)
                   (rect_height bubble + _bubbleShadow s
                    - size_height cornerShadow)
                   (_bubbleShadowBottomRight s);
                 FillRoundRect bubble msgInBg (_bubbleCorners s)] in
  let tail := logicalSize E (_bubbleTail s) in
  let p := p ++ [DrawImage
                   (mkPoint (- size_width tail)
                            (rect_height bubble - size_height tail))
                   (_bubbleTail s);
                 FillRect
                   (mkRect (- size_width tail) (rect_height bubble)
                      (size_width tail + rect_width bubble
                       - size_width cornerShadow)
                      (_bubbleShadow s))
                   msgInShadow] in
  let content := intersected clip (_content s) in
  if rect_isEmpty content then (s, p) else
  let p := p ++ [Translate (rect_x (_content s)) (rect_y (_content s))] in
  let local := translated content (point_neg (topLeft (_content s))) in
  let p := p ++ [SetClipRect local] in
  paintContent p local s.

Definition paintUserpic (p : list PaintOp) (clip : QRect) (s : Preview)
    : Preview * list PaintOp :=
  if rect_isEmpty (intersected clip (_userpic s)) then (s, p) else
  let s := validateUserpicCache s in
  (s, p ++ [DrawImage (topLeft (_userpic s)) (_userpicImage s)]).

Definition paintInner (p : list PaintOp) (clip : QRect) (s : Preview)
    : Preview * list PaintOp :=
  let p := p ++ [PaintBackground
                   (mkSize (rect_width (_inner s)) (rect_width (_inner s) * 3))
                   clip] in
  let '(s, p) := paintUserpic p clip s in
  let p := p ++ [Translate (rect_x (_bubble s)) (rect_y (_bubble s))] in
  paintBubble p (translated clip (point_neg (topLeft (_bubble s)))) s.

Definition paintLayer (p : list PaintOp) (clip : QRect) (s : Preview)
    : Preview * list PaintOp :=
  let p := p ++ [SetCompositionMode CompositionMode_Source] in
  let s := validateShadowCache s in
  let p := p ++ [ShadowPaint (_inner s) (rect_width (_outer s)) (_shadow s)
                   (_shadowSides s) (_shadowCorners s)] in
  let inner := intersected clip (_inner s) in
  if rect_isEmpty inner then (s, p) else
  let local := translated inner (point_neg (topLeft (_inner s))) in
  let q := [SetClipRect local] in
  let '(s, q) := paintInner q local s in
  let s := add_effect (Painted OnCanvas q) s in
  let s := set_canvas (Images_Round (_canvas s) (_canvasCornerMasks s)) s in
  (s, p ++ [SetCompositionMode CompositionMode_SourceOver;
            DrawImage (topLeft (_inner s)) (_canvas s)]).

Definition paint (p : list PaintOp) (clip : QRect) (s : Preview)
    : Preview * list PaintOp :=
  let outer := intersected clip (_outer s) in
  if rect_isEmpty outer then (s, p) else
  let local := translated outer (point_neg (topLeft (_outer s))) in
  let q := [SetClipRect local] in
  let '(s, q) := paintLayer q local s in
  let s := add_effect (Painted OnLayer q) s in
  let shown :=
    Simple_value (_shownAnimation s) (if _shown s then 1 else 0)%Q in
  let p := p ++ [SetClipRect clip; SetOpacity shown] in
  let p :=
    if negb (Qle_bool 1 shown) then
      let middle := rect_x (_outer s) + Z.quot (rect_width (_outer s)) 2 in
      let bottom := rect_y (_outer s) + rect_height (_outer s) in
      let scale := ((3 # 10) + shown * (7 # 10))%Q in
      p ++ [Translate middle bottom; Scale scale scale;
            Translate (- middle) (- bottom); HighQualityEnabler]
    else p in
  (s, p ++ [DrawImage (topLeft (_outer s)) (_layer s)]).

(** *** Construction *)

Definition initAsWindow (s : Preview) : Preview :=
  let s := widget_configure FramelessToolTipFlags s in
  let s := widget_configure WA_TransparentForMouseEvents s in
  let s := widget_hide s in
  let s := widget_configure WA_NoSystemBackground s in
  widget_configure WA_TranslucentBackground s.

(** [Preview::init].  Its two subscriptions are the handlers
    [on_paintRequest] and [on_paletteChanged] below. *)
Definition init (s : Preview) : Preview :=
  let s := set_theme (ThemeBackground (themeBackground E)) s in
  if _window s then
    let s := initAsWindow s in
    let s := updateToScale (kScaleMin E) s in
    let s := set_minOuterSize (rect_size (_outer s)) s in
    let s := updateToScale (Z.quot (kScaleMax E) (_ratio s)) s in
    set_maxOuterSize (rect_size (_outer s)) s
  else s.

(** The handler of the userpic stream. *)
Definition on_userpic (userpic : QImage) (s : Preview) : Preview :=
  let s := set_userpicOriginal userpic s in
  if negb (isNull (_userpicImage s)) then
    let s := set_userpicImage NullImage s in
    update s
  else s.

Definition on_paintRequest (clip : QRect) (s : Preview) : Preview :=
  let '(s, p) := paint [] clip s in
  add_effect (Painted OnWidget p) s.

Definition on_paletteChanged (s : Preview) : Preview :=
  let s := set_bubbleCorners null_images s in
  let s := set_bubbleTail NullImage s in
  let s := set_bubbleShadowBottomRight NullImage s in
  update s.

(** The members as their initializers leave them, around a fresh widget. *)
Definition members (fresh : Widget) : Preview :=
  {| _widget := fresh;
     _theme := ThemeDefault;
     _nameStyle := fwdTextStyle E;
     _nameText := mkTextString (Z.quot kMaxTextWidth 3) None;
     _textStyle := messageTextStyle E;
     _replyText := mkTextString (Z.quot kMaxTextWidth 3) None;
     _messageText := mkTextString (Z.quot kMaxTextWidth 3) None;
     _shadow := callShadow E;
     _shadowSides := null_images;
     _shadowCorners := null_images;
     _bubbleCorners := null_images;
     _bubbleShadowBottomRight := NullImage;
     _bubbleShadow := 0;
     _localShiftLeft := 0;
     _bubbleTail := NullImage;
     _replyBar := QRect_null;
     _name := QRect_null;
     _reply := QRect_null;
     _message := QRect_null;
     _content := QRect_null;
     _bubble := QRect_null;
     _userpic := QRect_null;
     _inner := QRect_null;
     _outer := QRect_null;
     _minOuterSize := QSize_default;
     _maxOuterSize := QSize_default;
     _layer := NullImage;
     _canvas := NullImage;
     _cursor := point_origin;
     _canvasCornerMasks := null_images;
     _userpicOriginal := NullImage;
     _userpicImage := NullImage;
     _scale := 0;
     _ratio := DevicePixelRatio E;
     _window := UseSeparateWindow;
     _shownAnimation := None;
     _shown := false;
     _filter := None;
     effects := [] |}.

(** [Preview::Preview(parent, userpic)]: the subscription to the userpic
    stream runs [on_userpic] on what the producer hands over at once, then
    [init] runs. *)
Definition Preview_new (fresh : Widget) (userpic : list QImage) : Preview :=
  let s := members fresh in
  let s := fold_left (fun s image => on_userpic image s) userpic s in
  init s.

(** *** The event loop

    Everything runs on the UI thread, one handler at a time. *)

Inductive Event :=
| Toggle (show : ScalePreviewShow) (scale globalX : Z)
| UserpicNext (image : QImage)
| PaletteChanged
| PaintRequest (clip : QRect)
| AncestorEvent (widget : WidgetId) (type : QEventType)
| ApplicationStateChanged (state : ApplicationState)
| AnimationTick (value : Q)
| AnimationFinished.

(** The event filter installed by [toggleFilter] on the watched widgets. *)
Definition on_ancestorEvent (W : World) (widget : WidgetId)
    (type : QEventType) (s : Preview) : Preview :=
  match _filter s with
  | None => s
  | Some watched =>
      if existsb (Z.eqb widget) watched
         && match type with
            | Event_Move | Event_Resize | Event_Show | Event_ShowToParent
            | Event_ZOrderChange => true
            | Event_Other => false
            end
      then updateGlobalPosition_filter W s
      else s
  end.

(** [checkDeactivation], connected for as long as [_filter] lives. *)
Definition checkDeactivation (W : World) (state : ApplicationState)
    (s : Preview) : Preview :=
  match _filter s with
  | None => s
  | Some _ =>
      match state with
      | ApplicationActive => s
      | _ => toggle W Hide 0 0 s
      end
  end.

(** A tick of a running animation moves its value and runs the callback;
    the last tick reaches the target, stops the animation, then runs the
    callback. *)
Definition on_animationTick (v : Q) (s : Preview) : Preview :=
  match _shownAnimation s with
  | None => s
  | Some _ =>
      shownCallback (set_shownAnimation (Simple_tick v (_shownAnimation s)) s)
  end.

Definition on_animationFinished (s : Preview) : Preview :=
  match _shownAnimation s with
  | None => s
  | Some _ => shownCallback (set_shownAnimation None s)
  end.

Definition handle (W : World) (e : Event) (s : Preview) : Preview :=
  match e with
  | Toggle show scale globalX => toggle W show scale globalX s
  | UserpicNext image => on_userpic image s
  | PaletteChanged => on_paletteChanged s
  | PaintRequest clip => on_paintRequest clip s
  | AncestorEvent widget type => on_ancestorEvent W widget type s
  | ApplicationStateChanged state => checkDeactivation W state s
  | AnimationTick v => on_animationTick v s
  | AnimationFinished => on_animationFinished s
  end.

Definition run (W : World) (events : list Event) (s : Preview) : Preview :=
  fold_left (fun s e => handle W e s) events s.

(** The animation progress that [paint] reads. *)
Definition progress (s : Preview) : Q :=
  Simple_value (_shownAnimation s) (if _shown s then 1 else 0)%Q.

(** *** [SetupScalePreview] *)

(** The result is the [Preview] made in the lifetime of the slider and the
    closure over it. *)
Definition SetupScalePreview (window : Controller) (fresh : Widget)
    : Outcome (Preview * ToggleFn) :=
  let controller := sessionController window in
  let user :=
    match controller with
    | Some c => Some (session_user c)
    | None => None
    end in
  arrow user (fun pointee =>
  let view := activeUserpicView pointee in
  let preview :=
    Preview_new fresh
      match user with
      | Some u => PeerUserpicImageValue E u 160 0
      | None => nullptr_producer
      end in
  Returned
    (preview,
     fun W show scale globalX => toggle W show scale globalX)).

End Methods.

(** ** A reference instance of the surroundings

    Concrete externals to run the model on: the scale conversion rounds
    [value * scale / 100 - 0.01] to the nearest integer and never maps a
    non-zero value to zero; the text engine gives every character the same
    advance and wraps at the given width. *)
Module Reference.

Definition convertScale (value scale : Z) : Z :=
  let convert (v : Z) :=
    let n := v * scale - 1 in
    let result := if n <? 0 then - ((50 - n) / 100) else (n + 50) / 100 in
    if (v =? 0) || negb (result =? 0) then result else 1 in
  if value <? 0 then - convert (- value) else convert value.

Definition fontHeight (f : font) : Z := font_size f * 18 / 13.

Definition textMaxWidth (t : TextString) : Z :=
  match text_content t with
  | None => 0
  | Some (st, text, _) =>
      Z.of_nat (String.length text) * (font_size (style_font st) * 7 / 13)
  end.

Definition textCountHeight (t : TextString) (width : Z) : Z :=
  match text_content t with
  | None => 0
  | Some (st, text, _) =>
      let line := Z.max (fontHeight (style_font st)) (style_lineHeight st) in
      let lines :=
        if width <=? 0 then 1
        else Z.max 1 ((textMaxWidth t + width - 1) / width) in
      lines * line
  end.

Definition imageSize (i : QImage) : QSize :=
  match i with
  | CornerPixmap radius _ _ => mkSize radius radius
  | IconInstance _ _ scale =>
      mkSize (convertScale 6 scale) (convertScale 6 scale)
  | _ => mkSize 0 0
  end.

Definition externals (wayland : bool) : Externals :=
  {| ConvertScale := convertScale;
     font_height := fontHeight;
     maxWidth := textMaxWidth;
     countHeight := textCountHeight;
     logicalSize := imageSize;
     kScaleMin := 75;
     kScaleMax := 300;
     DevicePixelRatio := 1;
     IsWayland := wayland;
     TranslucentWindowsSupported := true;
     fwdTextStyle :=
       mkTextStyle (mkFont 13 1 0) (mkFont 13 1 0) (mkFont 13 1 0) 0;
     messageTextStyle :=
       mkTextStyle (mkFont 13 0 0) (mkFont 13 0 0) (mkFont 13 0 0) 0;
     callShadow := mkShadow (mkMargins 9 8 9 10);
     slideWrapDuration := 100;
     kBarAlpha := 230 # 255;
     themeBackground := 0;
     PeerUserpicImageValue := fun u _ _ => [SourceImage (user_id u)] |}.

(** The embedded mode (no separate window) and the floating-window mode. *)
Definition embedded : Externals := externals true.
Definition floating : Externals := externals false.

(** A slider at (400, 600), 200 wide, on a 1920 x 1080 screen. *)
Definition world : World :=
  {| parent_pos := mkPoint 400 600;
     parent_width := 200;
     parent_global := mkPoint 400 600;
     parent_screen := Some (mkRect 0 0 1920 1080);
     parent_chain := [1; 2; 3];
     widget_window := 3 |}.

Definition fresh : Widget := mkWidget (mkRect 0 0 100 30) true [].

(** Freshly constructed objects: embedded without and with a userpic, and
    floating with a userpic. *)
Definition initial : Preview := Preview_new embedded fresh [].
Definition with_userpic : Preview :=
  Preview_new embedded fresh [SourceImage 1].
Definition floating_initial : Preview :=
  Preview_new floating fresh [SourceImage 1].

End Reference.

(** * What is proved about the object

    The vocabulary of the statements first, the proofs after it. *)

Section Vocabulary.

Variable E : Externals.

(** ** Layout *)

(** [child], given in the coordinates of [parent], does not leave it. *)
Definition within (child parent : QRect) : Prop :=
  0 <= rect_x child /\ 0 <= rect_y child /\
  0 <= rect_width child /\ 0 <= rect_height child /\
  rect_x child + rect_width child <= rect_width parent /\
  rect_y child + rect_height child <= rect_height parent.

(** The rect tree of a laid out object: every rect inside its parent, the
    outer rect at the origin. *)
Definition normalized (s : Preview) : Prop :=
  within (_name s) (_content s)
  /\ within (_reply s) (_content s)
  /\ within (_message s) (_content s)
  /\ within (_replyBar s) (_content s)
  /\ within (_content s) (_bubble s)
  /\ within (_bubble s) (_inner s)
  /\ (isNull (_userpicOriginal s) = false -> within (_userpic s) (_inner s))
  /\ within (_inner s) (_outer s)
  /\ topLeft (_outer s) = point_origin.

(** What the layout needs from the scale conversion at one scale: it maps
    non-negative values to non-negative values, in order, and the reply bar
    (offset 1, width 2) is no wider than the minimal text width. *)
Definition conversion_sane (scale : Z) : Prop :=
  (forall v w, 0 <= v <= w ->
     0 <= ConvertScale E v scale <= ConvertScale E w scale)
  /\ ConvertScale E 1 scale + ConvertScale E 2 scale
     <= ConvertScale E kMinTextWidth scale.

(** What the layout needs from the text engine in a laid out object: no
    negative heights, and the name line and the reply line together are no
    taller than the reply bar and the padding below it. *)
Definition metrics_sane (s : Preview) : Prop :=
  let nameHeight := font_height E (style_font (_nameStyle s)) in
  let textHeight := font_height E (style_font (_textStyle s)) in
  0 <= nameHeight /\ 0 <= textHeight
  /\ 0 <= countHeight E (_messageText s) (scaled E s kMaxTextWidth)
  /\ nameHeight + textHeight <= scaled E s 36 + scaled E s 6.

(** The scale conversion at two scales: a value that is not smaller is not
    mapped to a smaller value at the second scale. *)
Definition conversion_le (S1 S2 : Z) : Prop :=
  forall v w, 0 <= v <= w -> ConvertScale E v S1 <= ConvertScale E w S2.

(** The text engine in two laid out objects: the second has no narrower
    texts, no lower message and no lower text line than the first. *)
Definition metrics_le (a b : Preview) : Prop :=
  maxWidth E (_nameText a) <= maxWidth E (_nameText b)
  /\ maxWidth E (_replyText a) <= maxWidth E (_replyText b)
  /\ maxWidth E (_messageText a) <= maxWidth E (_messageText b)
  /\ countHeight E (_messageText a) (scaled E a kMaxTextWidth)
     <= countHeight E (_messageText b) (scaled E b kMaxTextWidth)
  /\ font_height E (style_font (_textStyle a))
     <= font_height E (style_font (_textStyle b)).

Definition size_le (a b : QRect) : Prop :=
  rect_width a <= rect_width b /\ rect_height a <= rect_height b.

Definition geometry_le (a b : Preview) : Prop :=
  size_le (_outer a) (_outer b)
  /\ size_le (_inner a) (_inner b)
  /\ size_le (_bubble a) (_bubble b).

(** The stored scale, the text runs, every geometry rect and every cached
    visual asset. *)
Definition layout_state (s : Preview) :=
  (_scale s,
   (_nameStyle s, _nameText s, _textStyle s, _replyText s, _messageText s),
   (_replyBar s, _name s, _reply s, _message s, _content s, _bubble s,
    _userpic s, _inner s, _outer s, _minOuterSize s, _maxOuterSize s),
   (_shadow s, _shadowSides s, _shadowCorners s, _bubbleCorners s,
    _bubbleShadowBottomRight s, _bubbleShadow s, _bubbleTail s,
    _layer s, _canvas s, _canvasCornerMasks s,
    _userpicOriginal s, _userpicImage s)).

(** The geometry that centers the popup above the parent: left edge at
    parent x + parent width / 2 - outer width / 2, top edge at
    parent y - outer height, size of the outer rect. *)
Definition centered_above (W : World) (outer : QRect) : QRect :=
  QRect_of
    (point_sub
       (point_add (parent_pos W) (mkPoint (Z.quot (parent_width W) 2) 0))
       (mkPoint (Z.quot (rect_width outer) 2) (rect_height outer)))
    (rect_size outer).

(** ** Visibility *)

(** The objects that the event loop can reach from a fresh one. *)
Inductive reachable : Preview -> Prop :=
| reachable_new fresh producer :
    reachable (Preview_new E fresh producer)
| reachable_step W e s :
    reachable s -> reachable (handle E W e s).

(** The visibility target and the hidden flag of the widget. *)
Definition visibility (s : Preview) : bool * bool :=
  (_shown s, widget_hidden (_widget s)).

(** Whenever the preview is to be shown, its widget is not hidden. *)
Definition shown_is_visible (s : Preview) : Prop :=
  _shown s = true -> widget_hidden (_widget s) = false.

(** The number of [hide()] calls made on the widget so far. *)
Fixpoint count_hides (l : list Effect) : nat :=
  match l with
  | [] => O
  | WidgetHide :: l => S (count_hides l)
  | _ :: l => count_hides l
  end.

(** Any number of animation ticks that are not the last one. *)
Definition ticks (values : list Q) (s : Preview) : Preview :=
  fold_left (fun s v => on_animationTick v s) values s.

(** In [t] a hide interpolation that started at progress [p] is running,
    and the widget has not been hidden since the object was in state [s]. *)
Definition hiding (p : Q) (s t : Preview) : Prop :=
  _shown t = false
  /\ widget_hidden (_widget t) = false
  /\ count_hides (effects t) = count_hides (effects s)
  /\ exists tween,
       _shownAnimation t = Some tween
       /\ tween_from tween = p /\ tween_to tween = 0%Q.

End Vocabulary.

(** ** Further vocabulary *)

Section MoreVocabulary.

Variable E : Externals.

(** ** Placement *)

(** [r], in global coordinates, lies between the left and the right edge
    of [screen]. *)
Definition inside_horizontally (r screen : QRect) : Prop :=
  rect_x screen <= rect_x r
  /\ rect_x r + rect_width r <= rect_x screen + rect_width screen.

(** [l] is [pre] followed by [post]. *)
Definition prefix_of (pre l : list WidgetId) : Prop :=
  exists post, l = pre ++ post.

(** ** What the handlers leave alone *)

(** The visibility controller: target, event filter, animation, the
    hidden flag of the widget, the mode and the number of [hide()] calls
    made so far. *)
Definition controls (s : Preview) :=
  (_shown s, _filter s, _shownAnimation s, widget_hidden (_widget s),
   _window s, count_hides (effects s)).

(** Everything but the cached assets, the canvas and the effect trace. *)
Definition steady (s : Preview) :=
  (_scale s, _ratio s, _window s, _theme s, _cursor s,
   (_nameStyle s, _nameText s, _textStyle s, _replyText s, _messageText s),
   (_replyBar s, _name s, _reply s, _message s, _content s, _bubble s,
    _userpic s, _inner s, _outer s),
   (_minOuterSize s, _maxOuterSize s, _localShiftLeft s, _widget s),
   (_shadow s, _bubbleShadow s, _layer s, _canvasCornerMasks s,
    _userpicOriginal s),
   (_shown s, _filter s, _shownAnimation s)).

(** What the cached assets are built from, and the assets. *)
Definition cache_view (s : Preview) :=
  (_scale s, _ratio s, _userpic s, _userpicOriginal s,
   (_userpicImage s, _bubbleCorners s, _bubbleTail s,
    _bubbleShadowBottomRight s, _shadowSides s, _shadowCorners s)).

(** ** Cached assets *)

(** The assets as the validate methods build them for the object. *)
Definition built_userpic (s : Preview) : QImage :=
  CircleImage (_userpicOriginal s)
    (size_mul (rect_size (_userpic s)) (_ratio s)) (_ratio s).

Definition built_bubbleCorners (s : Preview) : Array4 QImage :=
  mkArray4 (CornerPixmap (scaled E s 16) msgInBg 0)
           (CornerPixmap (scaled E s 16) msgInBg 1)
           NullImage
           (CornerPixmap (scaled E s 16) msgInBg 3).

Definition built_shadowSides (s : Preview) : Array4 QImage :=
  mkArray4 (IconInstance callShadow_left windowShadowFg (_scale s))
           (IconInstance callShadow_top windowShadowFg (_scale s))
           (IconInstance callShadow_right windowShadowFg (_scale s))
           (IconInstance callShadow_bottom windowShadowFg (_scale s)).

Definition built_shadowCorners (s : Preview) : Array4 QImage :=
  mkArray4 (IconInstance callShadow_topLeft windowShadowFg (_scale s))
           (IconInstance callShadow_bottomLeft windowShadowFg (_scale s))
           (IconInstance callShadow_topRight windowShadowFg (_scale s))
           (IconInstance callShadow_bottomRight windowShadowFg (_scale s)).

(** A cached asset that is not empty is the one that the validate methods
    of the model build from what is stored now: the scale, the userpic
    rect, the ratio and the source image.  Palette entries are names
    here, so this says nothing on the colour values. *)
Definition coherent (s : Preview) : Prop :=
  (isNull (_userpicImage s) = false -> _userpicImage s = built_userpic s)
  /\ (isNull (a0 (_bubbleCorners s)) = false ->
      _bubbleCorners s = built_bubbleCorners s
      /\ _bubbleTail s
         = IconInstance historyBubbleTailInLeft msgInBg (_scale s)
      /\ _bubbleShadowBottomRight s
         = CornerPixmap (scaled E s 16) msgInShadow 3)
  /\ (isNull (a0 (_shadowSides s)) = false ->
      _shadowSides s = built_shadowSides s
      /\ _shadowCorners s = built_shadowCorners s).

(** The event filter exists exactly while the preview is to be shown. *)
Definition filter_tracks_shown (s : Preview) : Prop :=
  _shown s = match _filter s with Some _ => true | None => false end.

(** In [t] a show interpolation that started at progress [p] is running
    and the widget has not been hidden since the object was in state [s]. *)
Definition showing (p : Q) (s t : Preview) : Prop :=
  _shown t = true
  /\ widget_hidden (_widget t) = false
  /\ count_hides (effects t) = count_hides (effects s)
  /\ exists tween,
       _shownAnimation t = Some tween
       /\ tween_from tween = p /\ tween_to tween = 1%Q.

(** What is fixed at construction: the mode, the pixel ratio, the theme
    and the smallest and the largest popup size. *)
Definition constants (s : Preview) :=
  (_window s, _ratio s, _theme s, _minOuterSize s, _maxOuterSize s).

(** ** Construction and painting *)

(** What [init] never writes. *)
Definition untouched_by_init (s : Preview) :=
  (_shown s, _filter s, _shownAnimation s, _userpicOriginal s, _ratio s,
   _window s, isNull (_userpicImage s)).

(** The effect is the record of a painting. *)
Definition is_painting (e : Effect) : bool :=
  match e with
  | Painted _ _ => true
  | _ => false
  end.

End MoreVocabulary.

(** ** Runs of the reference instance *)

(** The embedded preview with a userpic, shown at scale 100 and painted
    once. *)
Definition shown_and_painted : Preview :=
  handle Reference.embedded Reference.world
    (PaintRequest (mkRect 0 0 2000 2000))
    (handle Reference.embedded Reference.world (Toggle Show 100 500)
       Reference.with_userpic).

(** The embedded preview half way through its show animation. *)
Definition half_shown : Preview :=
  handle Reference.embedded Reference.world (AnimationTick (1 # 2))
    (handle Reference.embedded Reference.world (Toggle Show 100 500)
       Reference.with_userpic).

(** The floating preview shown at scale 100. *)
Definition floating_shown : Preview :=
  handle Reference.floating Reference.world (Toggle Show 100 500)
    Reference.floating_initial.

(** * Proofs *)

(** Splits an object into its members. *)
Ltac members_of s :=
  destruct s as
    [widget theme nameStyle nameText textStyle replyText messageText shadow
     shadowSides shadowCorners bubbleCorners bubbleShadowBottomRight
     bubbleShadow localShiftLeft bubbleTail replyBar name reply message
     content bubble userpic inner outer minOuterSize maxOuterSize layer
     canvas cursor canvasCornerMasks userpicOriginal userpicImage scale0
     ratio window animation shown filter effs].

(** Evaluation of the methods on a symbolic object: everything is unfolded
    except integer arithmetic and the externals. *)
Ltac evaluate :=
  cbv - [Z.add Z.sub Z.mul Z.opp Z.max Z.min Z.quot Z.div Z.ltb Z.leb Z.eqb
         Z.lt Z.le Z.ge Z.gt clamp isNull negb andb orb
         ConvertScale font_height maxWidth countHeight logicalSize
         slideWrapDuration].

Ltac evaluate_everywhere :=
  cbv - [Z.add Z.sub Z.mul Z.opp Z.max Z.min Z.quot Z.div Z.ltb Z.leb Z.eqb
         Z.lt Z.le Z.ge Z.gt clamp isNull negb andb orb
         ConvertScale font_height maxWidth countHeight logicalSize
         slideWrapDuration] in *.

(** Enters the recomputing branch of [updateToScale], in the goal and in
    the hypotheses, on an object split into its members, and decides
    whether there is a userpic. *)
Ltac relayout s :=
  unfold updateToScale in *;
  repeat match goal with
         | H : _scale s <> _ |- _ =>
             rewrite ?(proj2 (Z.eqb_neq _ _) H) in *; clear H
         end;
  members_of s;
  evaluate_everywhere;
  match goal with
  | |- context [isNull ?u] =>
      is_var u; destruct (isNull u) eqn:?;
      cbn [negb] in *; cbv beta iota in *
  end.

Ltac decide_conditions :=
  repeat match goal with
         | |- context [if ?c then _ else _] => destruct c
         | |- context [match ?c with Some _ => _ | None => _ end] =>
             destruct c
         end.

(** ** Layout *)

Lemma clamp_bounds v lo hi : lo <= hi -> lo <= clamp v lo hi <= hi.
Proof.
  intros Hle. unfold clamp.
  destruct (Z.ltb_spec v lo); [lia|].
  destruct (Z.ltb_spec hi v); lia.
Qed.

Lemma clamp_mono v1 lo1 hi1 v2 lo2 hi2 :
  v1 <= v2 -> lo1 <= lo2 -> hi1 <= hi2 -> lo1 <= hi2 ->
  clamp v1 lo1 hi1 <= clamp v2 lo2 hi2.
Proof.
  intros Hv Hlo Hhi Hx. unfold clamp.
  destruct (Z.ltb_spec v1 lo1), (Z.ltb_spec v2 lo2);
    destruct (Z.ltb_spec hi1 v1), (Z.ltb_spec hi2 v2); lia.
Qed.

Section Layout.

Variable E : Externals.

(** After a recomputation the stored scale is the requested one. *)
Lemma updateToScale_scale scale s : _scale (updateToScale E scale s) = scale.
Proof.
  destruct (Z.eq_dec (_scale s) scale) as [Heq | Hne].
  - unfold updateToScale. rewrite (proj2 (Z.eqb_eq _ _) Heq). exact Heq.
  - relayout s; reflexivity.
Qed.

(** *** The content width *)

(** Claim C8.  When [updateToScale] recomputes the layout for [scale], the
    width of the content rect (which is also the width of the message rect)
    is the maximum of name start + name width, reply start + reply width
    and the natural width of the message, clamped to
    [[scaled(120), scaled(320)]]; it lies in that closed interval as soon
    as the scale conversion orders the two bounds,
    [scaled(120) <= scaled(320)]. *)
Theorem updateToScale_content_width scale s :
  _scale s <> scale ->
  ConvertScale E kMinTextWidth scale <= ConvertScale E kMaxTextWidth scale ->
  let s' := updateToScale E scale s in
  rect_width (_content s')
  = clamp
      (Z.max (Z.max (rect_x (_name s') + maxWidth E (_nameText s'))
                    (rect_x (_reply s') + maxWidth E (_replyText s')))
             (maxWidth E (_messageText s')))
      (scaled E s' kMinTextWidth) (scaled E s' kMaxTextWidth)
  /\ rect_width (_message s') = rect_width (_content s')
  /\ scaled E s' kMinTextWidth <= rect_width (_content s')
     <= scaled E s' kMaxTextWidth.
Proof.
  intros Hne Hle.
  relayout s;
    (split; [reflexivity | split; [reflexivity | now apply clamp_bounds]]).
Qed.

(** *** The message height *)

(** Claim C9.  When [updateToScale] recomputes the layout, the height of
    the message rect is the natural wrapped height of the message at the
    maximal text width, capped at three lines of the scaled text font, so
    it is at most three times that font's height; and [paintMessage] draws
    the message elided with a limit of [kMaxTextLines = 3] lines. *)
Theorem updateToScale_message_height scale s :
  _scale s <> scale ->
  let s' := updateToScale E scale s in
  let lineHeight := font_height E (style_font (_textStyle s')) in
  rect_height (_message s')
  = Z.min (countHeight E (_messageText s') (scaled E s' kMaxTextWidth))
          (kMaxTextLines * lineHeight)
  /\ rect_height (_message s') <= 3 * lineHeight
  /\ forall p clip,
       paintMessage p clip s'
       = (s', p ++ [SetPen historyTextInFg;
                    DrawLeftElided (_messageText s') 0 0
                      (rect_width (_message s')) (rect_width (_message s'))
                      3]).
Proof.
  intros Hne.
  relayout s; (split; [reflexivity | split; [lia | reflexivity]]).
Qed.

(** *** The normalized rect tree *)

Ltac use_conversion Hmono :=
  pose proof (Hmono 1 1 ltac:(lia));
  pose proof (Hmono 2 2 ltac:(lia));
  pose proof (Hmono 6 6 ltac:(lia));
  pose proof (Hmono 7 7 ltac:(lia));
  pose proof (Hmono 8 8 ltac:(lia));
  pose proof (Hmono 9 9 ltac:(lia));
  pose proof (Hmono 10 10 ltac:(lia));
  pose proof (Hmono 13 13 ltac:(lia));
  pose proof (Hmono 16 16 ltac:(lia));
  pose proof (Hmono 20 20 ltac:(lia));
  pose proof (Hmono 33 36 ltac:(lia));
  pose proof (Hmono 33 40 ltac:(lia));
  pose proof (Hmono 36 36 ltac:(lia));
  pose proof (Hmono 40 40 ltac:(lia));
  pose proof (Hmono 10 120 ltac:(lia));
  pose proof (Hmono 120 320 ltac:(lia)).

(** Claim C7, as amended.  After [updateToScale] has recomputed the layout
    (the requested scale is not the stored one), every rect has a
    non-negative origin in its parent and stays inside it: name, reply,
    message and reply bar inside the content rect, the content rect inside
    the bubble, the bubble (and the userpic, when there is one) inside the
    inner rect, the inner rect inside the outer rect, whose origin is
    (0, 0).  This is under four assumptions on what is outside the file.
    On the scale conversion at the requested scale ([conversion_sane]):
    it maps non-negative values to non-negative values, in order, and the
    reply bar fits the narrowest content, [scaled(1) + scaled(2) <=
    scaled(120)].  On the text engine ([metrics_sane]): the two font
    heights and the wrapped height of the message are not negative, and
    the name line and the reply line together are no taller than
    [scaled(36) + scaled(6)]. *)
Theorem updateToScale_normalized scale s :
  _scale s <> scale ->
  conversion_sane E scale ->
  metrics_sane E (updateToScale E scale s) ->
  normalized (updateToScale E scale s).
Proof.
  intros Hne [Hmono Hbar] Hm.
  use_conversion Hmono. clear Hmono.
  relayout s;
    match goal with
    | |- context [clamp ?v ?lo ?hi] =>
        assert (Hclamp : lo <= clamp v lo hi <= hi)
          by (apply clamp_bounds; lia);
        set (messageWidth := clamp v lo hi) in *; clearbody messageWidth
    end;
    repeat split; try lia; congruence.
Qed.

(** *** The geometry grows with the scale *)

(** Claim C6.  For scales [S1 < S2], the layouts that [updateToScale]
    recomputes from one and the same object satisfy: width and height of
    the outer, the inner and the bubble rect at [S2] are at least those at
    [S1].  The scales are supported in the sense that the scale conversion
    and the text engine do not shrink from [S1] to [S2] ([conversion_le],
    [metrics_le]). *)
Theorem updateToScale_monotone s S1 S2 :
  S1 < S2 ->
  _scale s <> S1 -> _scale s <> S2 ->
  conversion_le E S1 S2 ->
  metrics_le E (updateToScale E S1 s) (updateToScale E S2 s) ->
  geometry_le (updateToScale E S1 s) (updateToScale E S2 s).
Proof.
  intros _ Hne1 Hne2 Hconv Hm.
  pose proof (Hconv 2 2 ltac:(lia)).
  pose proof (Hconv 6 6 ltac:(lia)).
  pose proof (Hconv 7 7 ltac:(lia)).
  pose proof (Hconv 8 8 ltac:(lia)).
  pose proof (Hconv 9 9 ltac:(lia)).
  pose proof (Hconv 10 10 ltac:(lia)).
  pose proof (Hconv 13 13 ltac:(lia)).
  pose proof (Hconv 16 16 ltac:(lia)).
  pose proof (Hconv 20 20 ltac:(lia)).
  pose proof (Hconv 36 36 ltac:(lia)).
  pose proof (Hconv 40 40 ltac:(lia)).
  pose proof (Hconv 120 120 ltac:(lia)).
  pose proof (Hconv 320 320 ltac:(lia)).
  pose proof (Hconv 120 320 ltac:(lia)).
  clear Hconv.
  relayout s;
    match goal with
    | |- context [clamp ?v1 (ConvertScale E 120 S1) ?hi1] =>
      match goal with
      | |- context [clamp ?v2 (ConvertScale E 120 S2) ?hi2] =>
          assert (Hclamp : clamp v1 (ConvertScale E 120 S1) hi1
                           <= clamp v2 (ConvertScale E 120 S2) hi2)
            by (apply clamp_mono; lia);
          set (width1 := clamp v1 (ConvertScale E 120 S1) hi1) in *;
          set (width2 := clamp v2 (ConvertScale E 120 S2) hi2) in *;
          clearbody width1 width2
      end
    end;
    repeat split; lia.
Qed.

End Layout.

(** ** Visibility *)

Section Visibility.

Variable E : Externals.

(** ** A shown preview has a visible widget *)

Lemma visibility_updateToScale scale s :
  visibility (updateToScale E scale s) = visibility s.
Proof.
  unfold updateToScale. destruct (_scale s =? scale); [reflexivity |].
  members_of s. evaluate. destruct (isNull userpicOriginal); reflexivity.
Qed.

Lemma visibility_updateOuterPosition globalX s :
  visibility (updateOuterPosition globalX s) = visibility s.
Proof.
  members_of s. unfold updateOuterPosition. cbn. destruct window; reflexivity.
Qed.

Lemma visibility_updateWindowGlobalPosition W global globalX s :
  visibility (updateWindowGlobalPosition W global globalX s) = visibility s.
Proof.
  unfold updateWindowGlobalPosition.
  rewrite visibility_updateOuterPosition. members_of s. reflexivity.
Qed.

Lemma visibility_updateGlobalPosition W globalX s :
  visibility (updateGlobalPosition W globalX s) = visibility s.
Proof.
  unfold updateGlobalPosition. destruct (_window s).
  - rewrite visibility_updateWindowGlobalPosition. members_of s. reflexivity.
  - rewrite visibility_updateOuterPosition. members_of s. reflexivity.
Qed.

Lemma visibility_validateShadowCache s :
  visibility (validateShadowCache s) = visibility s.
Proof.
  members_of s. unfold validateShadowCache. cbn.
  decide_conditions; reflexivity.
Qed.

Lemma visibility_validateBubbleCache s :
  visibility (validateBubbleCache E s) = visibility s.
Proof.
  members_of s. unfold validateBubbleCache. cbn.
  decide_conditions; reflexivity.
Qed.

Lemma visibility_validateUserpicCache s :
  visibility (validateUserpicCache s) = visibility s.
Proof.
  members_of s. unfold validateUserpicCache. cbn.
  decide_conditions; reflexivity.
Qed.

Lemma visibility_paintContent p clip s :
  visibility (fst (paintContent E p clip s)) = visibility s.
Proof.
  unfold paintContent, paintReply, paintMessage.
  decide_conditions; reflexivity.
Qed.

Lemma visibility_paintBubble p clip s :
  visibility (fst (paintBubble E p clip s)) = visibility s.
Proof.
  unfold paintBubble.
  destruct (rect_isEmpty _).
  - cbn [fst]. apply visibility_validateBubbleCache.
  - rewrite visibility_paintContent. apply visibility_validateBubbleCache.
Qed.

Lemma visibility_paintUserpic p clip s :
  visibility (fst (paintUserpic p clip s)) = visibility s.
Proof.
  unfold paintUserpic. destruct (rect_isEmpty _); cbn [fst];
    [reflexivity | apply visibility_validateUserpicCache].
Qed.

Lemma visibility_paintInner p clip s :
  visibility (fst (paintInner E p clip s)) = visibility s.
Proof.
  unfold paintInner.
  pose proof (visibility_paintUserpic
                (p ++ [PaintBackground
                         (mkSize (rect_width (_inner s))
                                 (rect_width (_inner s) * 3)) clip])
                clip s) as Hu.
  destruct (paintUserpic _ clip s) as [s1 p1]. cbn [fst] in Hu.
  rewrite visibility_paintBubble. exact Hu.
Qed.

Lemma visibility_paintLayer p clip s :
  visibility (fst (paintLayer E p clip s)) = visibility s.
Proof.
  unfold paintLayer.
  destruct (rect_isEmpty _).
  - cbn [fst]. apply visibility_validateShadowCache.
  - match goal with
    | |- context [paintInner E ?q ?c ?t] =>
        pose proof (visibility_paintInner q c t) as Hi;
        destruct (paintInner E q c t) as [s1 q1]
    end.
    cbn [fst] in *. rewrite visibility_validateShadowCache in Hi.
    rewrite <- Hi. members_of s1. reflexivity.
Qed.

Lemma visibility_paint p clip s :
  visibility (fst (paint E p clip s)) = visibility s.
Proof.
  unfold paint.
  destruct (rect_isEmpty _); [reflexivity |].
  match goal with
  | |- context [paintLayer E ?q ?c ?t] =>
      pose proof (visibility_paintLayer q c t) as Hl;
      destruct (paintLayer E q c t) as [s1 q1]
  end.
  cbn [fst] in *. rewrite <- Hl. members_of s1. reflexivity.
Qed.

Lemma visibility_invariant s t :
  visibility t = visibility s -> shown_is_visible s -> shown_is_visible t.
Proof.
  unfold visibility, shown_is_visible. intros Heq Hs Ht.
  injection Heq as Hshown Hhidden. rewrite Hhidden. apply Hs. congruence.
Qed.

Lemma toggleShown_invariant W sh s :
  shown_is_visible s -> shown_is_visible (toggleShown E W sh s).
Proof.
  intros Hs. members_of s. destruct widget as [g h c].
  unfold shown_is_visible in *. cbn in Hs.
  destruct shown, sh, h, filter; cbv - [slideWrapDuration]; 
    try reflexivity; try discriminate; auto.
Qed.

Lemma toggle_invariant W show scale globalX s :
  shown_is_visible s -> shown_is_visible (toggle E W show scale globalX s).
Proof.
  intros Hs. unfold toggle.
  assert (Hprepared :
    shown_is_visible
      (updateGlobalPosition W globalX (updateToScale E scale s))).
  { apply (visibility_invariant s); [| exact Hs].
    now rewrite visibility_updateGlobalPosition, visibility_updateToScale. }
  assert (Hoverlay : forall t,
    shown_is_visible t ->
    shown_is_visible
      (if widget_hidden (_widget t) then add_effect UpdateOverlayed t else t)).
  { intros t Ht. destruct (widget_hidden (_widget t)) eqn:Hh; [| exact Ht].
    apply (visibility_invariant t); [| exact Ht]. members_of t. reflexivity. }
  destruct show.
  - now apply toggleShown_invariant.
  - apply toggleShown_invariant. now apply Hoverlay.
  - destruct (negb (_shown s)); [exact Hs |].
    apply toggleShown_invariant. now apply Hoverlay.
Qed.

Lemma shownCallback_invariant s :
  shown_is_visible s -> shown_is_visible (shownCallback s).
Proof.
  intros Hs. members_of s. destruct widget as [g h c].
  unfold shown_is_visible in *. cbn in Hs.
  destruct shown, animation; cbv; auto; discriminate.
Qed.

Lemma handle_invariant W e s :
  shown_is_visible s -> shown_is_visible (handle E W e s).
Proof.
  intros Hs. destruct e; cbn [handle].
  - now apply toggle_invariant.
  - apply (visibility_invariant s); [| exact Hs].
    members_of s. unfold on_userpic. cbn. decide_conditions; reflexivity.
  - apply (visibility_invariant s); [| exact Hs]. members_of s. reflexivity.
  - apply (visibility_invariant s); [| exact Hs].
    unfold on_paintRequest.
    pose proof (visibility_paint [] clip s) as Hp.
    destruct (paint E [] clip s) as [s1 p1]. cbn [fst] in Hp.
    rewrite <- Hp. members_of s1. reflexivity.
  - unfold on_ancestorEvent. destruct (_filter s); [| exact Hs].
    destruct (_ && _); [| exact Hs].
    apply (visibility_invariant s); [| exact Hs].
    apply visibility_updateWindowGlobalPosition.
  - unfold checkDeactivation. destruct (_filter s); [| exact Hs].
    destruct state; try exact Hs; now apply toggle_invariant.
  - unfold on_animationTick. destruct (_shownAnimation s) eqn:Ha; [| exact Hs].
    apply shownCallback_invariant.
    apply (visibility_invariant s); [| exact Hs]. members_of s. reflexivity.
  - unfold on_animationFinished.
    destruct (_shownAnimation s) eqn:Ha; [| exact Hs].
    apply shownCallback_invariant.
    apply (visibility_invariant s); [| exact Hs]. members_of s. reflexivity.
Qed.

Lemma shown_init s : _shown (init E s) = _shown s.
Proof.
  assert (Hshown : forall scale t,
            _shown (updateToScale E scale t) = _shown t).
  { intros scale t.
    pose proof (visibility_updateToScale scale t) as Hv.
    now injection Hv. }
  assert (Hmin : forall v t, _shown (set_minOuterSize v t) = _shown t)
    by (intros v t; members_of t; reflexivity).
  assert (Hmax : forall v t, _shown (set_maxOuterSize v t) = _shown t)
    by (intros v t; members_of t; reflexivity).
  assert (Hwindow : forall t, _shown (initAsWindow t) = _shown t)
    by (intros t; members_of t; reflexivity).
  assert (Htheme : forall v t, _shown (set_theme v t) = _shown t)
    by (intros v t; members_of t; reflexivity).
  unfold init. destruct (_window _).
  - cbv zeta. now rewrite Hmax, Hshown, Hmin, Hshown, Hwindow, Htheme.
  - apply Htheme.
Qed.

Lemma Preview_new_hidden fresh producer :
  _shown (Preview_new E fresh producer) = false.
Proof.
  unfold Preview_new. cbv zeta. rewrite shown_init.
  generalize (members E fresh) (eq_refl : _shown (members E fresh) = false).
  induction producer as [| image images IH]; intros s Hs; [exact Hs |].
  apply IH. members_of s. unfold on_userpic. cbn in *.
  destruct (isNull userpicImage); exact Hs.
Qed.

(** Every object that the event loop reaches from a fresh one satisfies
    the invariant. *)
Lemma reachable_shown_is_visible s : reachable E s -> shown_is_visible s.
Proof.
  induction 1 as [fresh producer | W e s Hs IH].
  - intros Hshown. rewrite Preview_new_hidden in Hshown. discriminate.
  - now apply handle_invariant.
Qed.

(** ** A Hide request *)

(** Claim C10.  A [toggle] call of kind [Hide] does not recompute the
    layout: the stored scale, the geometry rects and the cached assets are
    the same afterwards, and the [scale] and [globalX] arguments play no
    role.  When the preview is already hidden the call changes nothing at
    all: no animation is started or stopped and no call is made on the
    widget. *)
Theorem toggle_Hide_frame W scale globalX s :
  layout_state (toggle E W Hide scale globalX s) = layout_state s
  /\ toggle E W Hide scale globalX s = toggle E W Hide 0 0 s
  /\ (_shown s = false -> toggle E W Hide scale globalX s = s).
Proof.
  split; [| split].
  - members_of s. destruct shown; [| reflexivity].
    destruct widget as [g [|] c]; reflexivity.
  - reflexivity.
  - intros Hs. unfold toggle, toggleShown. rewrite Hs. reflexivity.
Qed.

(** ** Hiding a shown preview *)

Lemma hiding_tick p s t v :
  hiding p s t -> hiding p s (on_animationTick v t).
Proof.
  intros (Hshown & Hhidden & Hcount & tween & Hanim & Hfrom & Hto).
  members_of t. cbn in Hshown, Hhidden, Hcount, Hanim. subst.
  destruct tween as [f x target d]. cbn in Hto. subst.
  destruct widget as [g h c]. cbn in Hhidden. subst.
  unfold hiding. cbv - [count_hides].
  repeat split; try assumption.
  eexists. repeat split.
Qed.

Lemma hiding_ticks p s values :
  forall t, hiding p s t -> hiding p s (ticks values t).
Proof.
  induction values as [| v values IH]; intros t Ht; [exact Ht |].
  apply (IH (on_animationTick v t)). now apply hiding_tick.
Qed.

Lemma hiding_finished p s t :
  hiding p s t ->
  let t' := on_animationFinished t in
  widget_hidden (_widget t') = true
  /\ _shownAnimation t' = None
  /\ count_hides (effects t') = S (count_hides (effects s)).
Proof.
  intros (Hshown & Hhidden & Hcount & tween & Hanim & Hfrom & Hto).
  members_of t. cbn in Hshown, Hhidden, Hcount, Hanim. subst.
  cbv - [count_hides]. cbn [count_hides]. rewrite Hcount. repeat split.
Qed.

(** Claim C5.  A [Hide] request on a shown preview (whether or not its
    show animation is still running) starts an interpolation from the
    current progress to 0: the animation's start value is [progress s] and
    its target is 0 whatever the target was before.  The widget is not
    hidden by the request nor by any tick of the interpolation; it is
    hidden by the tick that completes it.  The preview is any object that
    the event loop reaches from a fresh one. *)
Theorem toggle_Hide_while_shown W scale globalX s :
  reachable E s ->
  _shown s = true ->
  let s' := toggle E W Hide scale globalX s in
  _shownAnimation s'
  = Some (mkTween (progress s) (progress s) 0 (slideWrapDuration E))
  /\ (forall values, hiding (progress s) s (ticks values s'))
  /\ (forall values,
        let t := on_animationFinished (ticks values s') in
        widget_hidden (_widget t) = true
        /\ _shownAnimation t = None
        /\ count_hides (effects t) = S (count_hides (effects s))).
Proof.
  intros Hreachable Hshown.
  pose proof (reachable_shown_is_visible s Hreachable Hshown) as Hhidden.
  clear Hreachable.
  assert (Hstart : hiding (progress s) s (toggle E W Hide scale globalX s)
                   /\ _shownAnimation (toggle E W Hide scale globalX s)
                      = Some (mkTween (progress s) (progress s) 0
                                (slideWrapDuration E))).
  { members_of s. cbn in Hshown, Hhidden. subst.
    destruct widget as [g h c]. cbn in Hhidden. subst.
    unfold hiding. cbv - [count_hides slideWrapDuration].
    destruct animation as [[f x target d] |];
      (split; [repeat split; eexists; repeat split | reflexivity]). }
  destruct Hstart as [Hhiding Hanim].
  split; [exact Hanim | split].
  - intros values. now apply hiding_ticks.
  - intros values. apply (hiding_finished (progress s)).
    now apply hiding_ticks.
Qed.

End Visibility.

(** ** Events and setup *)

Section Events.

Variable E : Externals.

(** ** The embedded position *)

(** Claim C2, what the code does.  In embedded mode
    [updateGlobalPosition] gives the widget the size of the outer rect at
    the position of the parent itself: not shifted by half the widths, not
    lifted by the outer height. *)
Theorem updateGlobalPosition_embedded W globalX s :
  _window s = false ->
  let s' := updateGlobalPosition W globalX s in
  widget_geometry (_widget s') = QRect_of (parent_pos W) (rect_size (_outer s))
  /\ effects s'
     = WidgetSetGeometry (QRect_of (parent_pos W) (rect_size (_outer s)))
       :: effects s.
Proof.
  intros Hw. members_of s. cbn in Hw. subst. split; reflexivity.
Qed.

(** ** A palette change *)

(** Claim C3, as amended.  A palette change empties the bubble corner
    pixmaps, the bubble tail and the bubble bottom-right shadow pixmap and
    requests a repaint of the outer rect.  The userpic bitmap, which is cut
    from the source image and does not depend on the palette, is kept. *)
Theorem on_paletteChanged_invalidates s :
  let s' := on_paletteChanged s in
  _bubbleCorners s' = null_images
  /\ _bubbleTail s' = NullImage
  /\ _bubbleShadowBottomRight s' = NullImage
  /\ effects s' = WidgetUpdate (_outer s) :: effects s
  /\ _userpicImage s' = _userpicImage s.
Proof.
  members_of s. repeat split.
Qed.

(** The handler does not write the shadow side and corner bitmaps either,
    although [validateShadowCache] tints them with the palette colour
    [st::windowShadowFg->c]: bitmaps built before the change are drawn
    after it until the scale changes. *)
Lemma on_paletteChanged_shadow s :
  let s' := on_paletteChanged s in
  _shadowSides s' = _shadowSides s /\ _shadowCorners s' = _shadowCorners s.
Proof.
  members_of s. split; reflexivity.
Qed.

(** ** A new userpic *)

(** Claim C4, as amended.  When an image arrives from the userpic stream
    it becomes the stored original, whether or not it equals the previous
    one.  A repaint is requested exactly when the cached userpic bitmap is
    not empty, and that bitmap is emptied then. *)
Theorem on_userpic_redraw image s :
  let s' := on_userpic image s in
  _userpicOriginal s' = image
  /\ effects s'
     = (if isNull (_userpicImage s) then effects s
        else WidgetUpdate (_outer s) :: effects s)
  /\ _userpicImage s'
     = (if isNull (_userpicImage s) then _userpicImage s else NullImage).
Proof.
  members_of s. unfold on_userpic. cbn.
  destruct (isNull userpicImage); repeat split.
Qed.

(** ** Setup without a session *)

(** Claim C1, what the code does.  Without a session controller the user
    pointer is null and [SetupScalePreview] dereferences it
    ([user->activeUserpicView()]) before the null check that guards the
    userpic producer: the call does not return. *)
Theorem SetupScalePreview_without_session fresh :
  SetupScalePreview E (mkController None) fresh = NullDereference.
Proof.
  reflexivity.
Qed.

(** With a session the call returns the constructed preview and a closure
    that forwards to [toggle]. *)
Lemma SetupScalePreview_with_session controller fresh :
  SetupScalePreview E (mkController (Some controller)) fresh
  = Returned
      (Preview_new E fresh
         (PeerUserpicImageValue E (session_user controller) 160 0),
       fun W show scale globalX => toggle E W show scale globalX).
Proof.
  reflexivity.
Qed.

End Events.

(** * Further properties *)

Section Frames.

Variable E : Externals.

(** ** What the methods leave alone *)

Lemma controls_updateToScale scale s :
  controls (updateToScale E scale s) = controls s.
Proof.
  unfold updateToScale. destruct (_scale s =? scale); [reflexivity |].
  members_of s. evaluate. destruct (isNull userpicOriginal); reflexivity.
Qed.

Lemma controls_updateOuterPosition globalX s :
  controls (updateOuterPosition globalX s) = controls s.
Proof.
  members_of s. unfold updateOuterPosition. cbn. destruct window; reflexivity.
Qed.

Lemma controls_updateWindowGlobalPosition W global globalX s :
  controls (updateWindowGlobalPosition W global globalX s) = controls s.
Proof.
  unfold updateWindowGlobalPosition.
  rewrite controls_updateOuterPosition. members_of s. reflexivity.
Qed.

Lemma controls_updateGlobalPosition W globalX s :
  controls (updateGlobalPosition W globalX s) = controls s.
Proof.
  unfold updateGlobalPosition. destruct (_window s).
  - rewrite controls_updateWindowGlobalPosition. members_of s. reflexivity.
  - rewrite controls_updateOuterPosition. members_of s. reflexivity.
Qed.

Lemma cache_view_updateOuterPosition globalX s :
  cache_view (updateOuterPosition globalX s) = cache_view s.
Proof.
  members_of s. unfold updateOuterPosition. cbn. destruct window; reflexivity.
Qed.

Lemma cache_view_updateWindowGlobalPosition W global globalX s :
  cache_view (updateWindowGlobalPosition W global globalX s) = cache_view s.
Proof.
  unfold updateWindowGlobalPosition.
  rewrite cache_view_updateOuterPosition. members_of s. reflexivity.
Qed.

Lemma cache_view_updateGlobalPosition W globalX s :
  cache_view (updateGlobalPosition W globalX s) = cache_view s.
Proof.
  unfold updateGlobalPosition. destruct (_window s).
  - rewrite cache_view_updateWindowGlobalPosition. members_of s. reflexivity.
  - rewrite cache_view_updateOuterPosition. members_of s. reflexivity.
Qed.

Lemma cache_view_toggleShown W sh s :
  cache_view (toggleShown E W sh s) = cache_view s.
Proof.
  members_of s. destruct widget as [g h c].
  destruct shown, sh, h, filter; reflexivity.
Qed.

Lemma cache_view_shownCallback s :
  cache_view (shownCallback s) = cache_view s.
Proof.
  members_of s. destruct shown, animation; reflexivity.
Qed.

(** *** The paint methods, as what they do to the object *)

Lemma fst_paintContent p clip s : fst (paintContent E p clip s) = s.
Proof.
  unfold paintContent, paintReply, paintMessage.
  destruct (rect_isEmpty _); reflexivity.
Qed.

Lemma fst_paintBubble p clip s :
  fst (paintBubble E p clip s) = validateBubbleCache E s.
Proof.
  unfold paintBubble. destruct (rect_isEmpty _); [reflexivity |].
  apply fst_paintContent.
Qed.

Lemma fst_paintUserpic p clip s :
  fst (paintUserpic p clip s)
  = if rect_isEmpty (intersected clip (_userpic s)) then s
    else validateUserpicCache s.
Proof.
  unfold paintUserpic. destruct (rect_isEmpty _); reflexivity.
Qed.

Lemma fst_paintInner p clip s :
  fst (paintInner E p clip s)
  = validateBubbleCache E
      (if rect_isEmpty (intersected clip (_userpic s)) then s
       else validateUserpicCache s).
Proof.
  unfold paintInner.
  match goal with
  | |- context [paintUserpic ?q clip s] =>
      pose proof (fst_paintUserpic q clip s) as Hu;
      destruct (paintUserpic q clip s) as [s1 p1]
  end.
  cbn [fst] in Hu. subst s1. apply fst_paintBubble.
Qed.

(** A property of the object that the three validate methods, a write to
    the canvas and the record of a painting keep is kept by [paintLayer]
    and by [paint]. *)
Lemma paintLayer_keeps (P : Preview -> Prop) :
  (forall s, P s -> P (validateShadowCache s)) ->
  (forall s, P s -> P (validateBubbleCache E s)) ->
  (forall s, P s -> P (validateUserpicCache s)) ->
  (forall v s, P s -> P (set_canvas v s)) ->
  (forall target ops s, P s -> P (add_effect (Painted target ops) s)) ->
  forall p clip s, P s -> P (fst (paintLayer E p clip s)).
Proof.
  intros Hshadow Hbubble Huserpic Hcanvas Heffect.
  assert (Hinner : forall q c t, P t -> P (fst (paintInner E q c t))).
  { intros q c t Ht. rewrite fst_paintInner. apply Hbubble.
    destruct (rect_isEmpty _); [exact Ht | now apply Huserpic]. }
  intros q c t Ht. unfold paintLayer.
  destruct (rect_isEmpty _); [now apply Hshadow |].
  match goal with
  | |- context [paintInner E ?q' ?c' ?t'] =>
      pose proof (Hinner q' c' t' (Hshadow t Ht)) as Hi;
      destruct (paintInner E q' c' t') as [s1 q1]
  end.
  cbn [fst] in *. apply Hcanvas. now apply Heffect.
Qed.

Lemma paint_keeps (P : Preview -> Prop) :
  (forall s, P s -> P (validateShadowCache s)) ->
  (forall s, P s -> P (validateBubbleCache E s)) ->
  (forall s, P s -> P (validateUserpicCache s)) ->
  (forall v s, P s -> P (set_canvas v s)) ->
  (forall target ops s, P s -> P (add_effect (Painted target ops) s)) ->
  forall p clip s, P s -> P (fst (paint E p clip s)).
Proof.
  intros Hshadow Hbubble Huserpic Hcanvas Heffect p clip s Hs.
  unfold paint. destruct (rect_isEmpty _); [exact Hs |].
  match goal with
  | |- context [paintLayer E ?q' ?c' ?t'] =>
      pose proof (paintLayer_keeps P Hshadow Hbubble Huserpic Hcanvas
                    Heffect q' c' t' Hs) as Hl;
      destruct (paintLayer E q' c' t') as [s1 q1]
  end.
  cbn [fst] in *. now apply Heffect.
Qed.

Lemma on_paintRequest_keeps (P : Preview -> Prop) :
  (forall s, P s -> P (validateShadowCache s)) ->
  (forall s, P s -> P (validateBubbleCache E s)) ->
  (forall s, P s -> P (validateUserpicCache s)) ->
  (forall v s, P s -> P (set_canvas v s)) ->
  (forall target ops s, P s -> P (add_effect (Painted target ops) s)) ->
  forall clip s, P s -> P (on_paintRequest E clip s).
Proof.
  intros Hshadow Hbubble Huserpic Hcanvas Heffect clip s Hs.
  unfold on_paintRequest.
  pose proof (paint_keeps P Hshadow Hbubble Huserpic Hcanvas Heffect
                [] clip s Hs) as Hp.
  destruct (paint E [] clip s) as [s1 p1]. cbn [fst] in Hp.
  now apply Heffect.
Qed.

Ltac keeps_by_members :=
  intros; match goal with
          | H : _ = _ |- _ => rewrite <- H
          end;
  match goal with
  | |- context [validateShadowCache ?t] =>
      members_of t; unfold validateShadowCache
  | |- context [validateBubbleCache E ?t] =>
      members_of t; unfold validateBubbleCache
  | |- context [validateUserpicCache ?t] =>
      members_of t; unfold validateUserpicCache
  | |- context [set_canvas _ ?t] => members_of t
  | |- context [add_effect _ ?t] => members_of t
  end;
  cbn; decide_conditions; reflexivity.

Lemma steady_on_paintRequest clip s :
  steady (on_paintRequest E clip s) = steady s.
Proof.
  apply (on_paintRequest_keeps (fun t => steady t = steady s));
    [keeps_by_members .. | reflexivity].
Qed.

Lemma controls_on_paintRequest clip s :
  controls (on_paintRequest E clip s) = controls s.
Proof.
  apply (on_paintRequest_keeps (fun t => controls t = controls s));
    [keeps_by_members .. | reflexivity].
Qed.

(** *** The constants *)

Lemma constants_updateToScale scale s :
  constants (updateToScale E scale s) = constants s.
Proof.
  unfold updateToScale. destruct (_scale s =? scale); [reflexivity |].
  members_of s. evaluate. destruct (isNull userpicOriginal); reflexivity.
Qed.

Lemma constants_updateOuterPosition globalX s :
  constants (updateOuterPosition globalX s) = constants s.
Proof.
  members_of s. unfold updateOuterPosition. cbn. destruct window; reflexivity.
Qed.

Lemma constants_updateWindowGlobalPosition W global globalX s :
  constants (updateWindowGlobalPosition W global globalX s) = constants s.
Proof.
  unfold updateWindowGlobalPosition.
  rewrite constants_updateOuterPosition. members_of s. reflexivity.
Qed.

Lemma constants_updateGlobalPosition W globalX s :
  constants (updateGlobalPosition W globalX s) = constants s.
Proof.
  unfold updateGlobalPosition. destruct (_window s).
  - rewrite constants_updateWindowGlobalPosition. members_of s. reflexivity.
  - rewrite constants_updateOuterPosition. members_of s. reflexivity.
Qed.

Lemma constants_toggleShown W sh s :
  constants (toggleShown E W sh s) = constants s.
Proof.
  members_of s. destruct widget as [g h c].
  destruct shown, sh, h, filter; reflexivity.
Qed.

Lemma constants_shownCallback s :
  constants (shownCallback s) = constants s.
Proof.
  members_of s. destruct shown, animation; reflexivity.
Qed.

Lemma constants_toggle W show scale globalX s :
  constants (toggle E W show scale globalX s) = constants s.
Proof.
  assert (Hprepared :
    constants (updateGlobalPosition W globalX (updateToScale E scale s))
    = constants s)
    by now rewrite constants_updateGlobalPosition, constants_updateToScale.
  assert (Hoverlay : forall t,
    constants
      (if widget_hidden (_widget t) then add_effect UpdateOverlayed t else t)
    = constants t).
  { intros t. destruct (widget_hidden (_widget t)); [| reflexivity].
    members_of t. reflexivity. }
  unfold toggle. destruct show.
  - apply constants_toggleShown.
  - now rewrite constants_toggleShown, Hoverlay.
  - destruct (negb (_shown s)); [reflexivity |].
    now rewrite constants_toggleShown, Hoverlay.
Qed.

Lemma constants_on_paintRequest clip s :
  constants (on_paintRequest E clip s) = constants s.
Proof.
  apply (on_paintRequest_keeps (fun t => constants t = constants s));
    [keeps_by_members .. | reflexivity].
Qed.

Lemma constants_handle W e s : constants (handle E W e s) = constants s.
Proof.
  destruct e; cbn [handle].
  - apply constants_toggle.
  - members_of s. unfold on_userpic. cbn. decide_conditions; reflexivity.
  - members_of s. reflexivity.
  - apply constants_on_paintRequest.
  - unfold on_ancestorEvent. destruct (_filter s); [| reflexivity].
    destruct (_ && _); [| reflexivity].
    apply constants_updateWindowGlobalPosition.
  - unfold checkDeactivation. destruct (_filter s); [| reflexivity].
    destruct state; try reflexivity; apply constants_toggle.
  - unfold on_animationTick. destruct (_shownAnimation s); [| reflexivity].
    rewrite constants_shownCallback. members_of s. reflexivity.
  - unfold on_animationFinished.
    destruct (_shownAnimation s); [| reflexivity].
    rewrite constants_shownCallback. members_of s. reflexivity.
Qed.

End Frames.

Section MoreLayout.

Variable E : Externals.

(** ** More on the layout *)

(** Property X1.  A second [updateToScale] with the same scale changes
    nothing: same geometry, no cache emptied, no repaint requested. *)
Theorem updateToScale_idempotent scale s :
  updateToScale E scale (updateToScale E scale s) = updateToScale E scale s.
Proof.
  pose proof (updateToScale_scale E scale s) as Hscale.
  set (t := updateToScale E scale s) in *. clearbody t.
  unfold updateToScale. now rewrite Hscale, Z.eqb_refl.
Qed.

(** Property X2.  A recomputation requests one repaint, of the outer rect as
    it was before; it empties the bubble and the shadow assets, and the
    userpic bitmap when there is a source image; it allocates the two
    buffers in the sizes of the outer and the inner rect times the pixel
    ratio; it leaves the visibility controller, the widget, the placement
    state and the source image alone. *)
Theorem updateToScale_invalidates scale s :
  _scale s <> scale ->
  let s' := updateToScale E scale s in
  effects s' = WidgetUpdate (_outer s) :: effects s
  /\ (_bubbleCorners s', _bubbleTail s', _bubbleShadowBottomRight s')
     = (null_images, NullImage, NullImage)
  /\ (_shadowSides s', _shadowCorners s') = (null_images, null_images)
  /\ _userpicImage s'
     = (if isNull (_userpicOriginal s) then _userpicImage s else NullImage)
  /\ _layer s' = Buffer (size_mul (rect_size (_outer s')) (_ratio s)) (_ratio s)
  /\ _canvas s' = Buffer (size_mul (rect_size (_inner s')) (_ratio s)) (_ratio s)
  /\ controls s' = controls s
  /\ (_widget s', _localShiftLeft s', _minOuterSize s', _maxOuterSize s',
      _userpicOriginal s', _window s', _ratio s')
     = (_widget s, _localShiftLeft s, _minOuterSize s, _maxOuterSize s,
        _userpicOriginal s, _window s, _ratio s).
Proof.
  intros Hne. relayout s; repeat split.
Qed.

(** Property X3.  The userpic only shifts the bubble: with a source image the
    layout has the same content rect and the same bubble size as without,
    the bubble starts [scaled(40)] further right, the card is that much
    wider and no higher, and the userpic rect is a square of side
    [scaled(33)] at the left margin, bottom-aligned with the bubble.
    Without a source image the userpic rect is not touched. *)
Theorem updateToScale_userpic_skip scale s image :
  _scale s <> scale ->
  isNull (_userpicOriginal s) = true ->
  isNull image = false ->
  let a := updateToScale E scale s in
  let b := updateToScale E scale (set_userpicOriginal image s) in
  _userpic a = _userpic s
  /\ _content b = _content a
  /\ rect_size (_bubble b) = rect_size (_bubble a)
  /\ rect_x (_bubble b) = rect_x (_bubble a) + scaled E b 40
  /\ rect_y (_bubble b) = rect_y (_bubble a)
  /\ rect_width (_inner b) = rect_width (_inner a) + scaled E b 40
  /\ rect_height (_inner b) = rect_height (_inner a)
  /\ _userpic b
     = mkRect (scaled E b 20)
              (rect_y (_bubble b) + rect_height (_bubble b) - scaled E b 33)
              (scaled E b 33) (scaled E b 33).
Proof.
  intros Hne Hnone Himage.
  unfold updateToScale.
  change (_scale (set_userpicOriginal image s)) with (_scale s).
  rewrite (proj2 (Z.eqb_neq _ _) Hne).
  members_of s. evaluate_everywhere.
  rewrite Hnone, Himage. cbn [negb]. cbv beta iota.
  repeat split; try reflexivity; try lia.
Qed.

End MoreLayout.

Section LayoutShape.

Variable E : Externals.

(** Property X4.  After a recomputation the text rects are stacked: the
    reply line starts where the name line ends and both have the same
    left edge and the same width, reaching to the right edge of the
    content; the message starts below the reply bar, after a gap of
    [scaled(6)], spans the whole width and ends where the content ends. *)
Theorem updateToScale_stacks scale s :
  _scale s <> scale ->
  let s' := updateToScale E scale s in
  rect_y (_reply s') = rect_y (_name s') + rect_height (_name s')
  /\ rect_x (_reply s') = rect_x (_name s')
  /\ rect_width (_reply s') = rect_width (_name s')
  /\ rect_x (_name s') + rect_width (_name s') = rect_width (_content s')
  /\ rect_y (_message s')
     = rect_y (_replyBar s') + rect_height (_replyBar s') + scaled E s' 6
  /\ rect_x (_message s') = 0
  /\ rect_width (_message s') = rect_width (_content s')
  /\ rect_y (_message s') + rect_height (_message s')
     = rect_height (_content s').
Proof.
  intros Hne. relayout s; repeat split; lia.
Qed.

(** Property X5.  After a recomputation every nested rect sits in its parent
    at the parent's left and top margin, and every parent has the size of
    its child grown by the scaled margins: the message padding
    (13, 7, 13, 8) around the content, the margin (20, 16, 20, 16) around
    the bubble, widened on the left by [scaled(40)] when there is a
    userpic, and the shadow extents (9, 8, 9, 10) around the card, which
    are the extents stored in the shadow. *)
Theorem updateToScale_margins scale s :
  _scale s <> scale ->
  let s' := updateToScale E scale s in
  let skip := if isNull (_userpicOriginal s) then 0 else scaled E s' 40 in
  let padding := scaled_margins E s' (mkMargins 13 7 13 8) in
  let margin :=
    margins_add (scaled_margins E s' (mkMargins 20 16 20 16))
                (mkMargins skip 0 0 0) in
  topLeft (_content s') = mkPoint (margins_left padding) (margins_top padding)
  /\ rect_size (_bubble s') = rect_size (marginsAdded (_content s') padding)
  /\ topLeft (_bubble s') = mkPoint (margins_left margin) (margins_top margin)
  /\ rect_size (_inner s') = rect_size (marginsAdded (_bubble s') margin)
  /\ shadow_extend (_shadow s')
     = scaled_margins E s' (mkMargins 9 8 9 10)
  /\ topLeft (_inner s')
     = mkPoint (margins_left (shadow_extend (_shadow s')))
               (margins_top (shadow_extend (_shadow s')))
  /\ rect_size (_outer s')
     = rect_size (marginsAdded (_inner s') (shadow_extend (_shadow s'))).
Proof.
  intros Hne. relayout s; repeat split; f_equal; lia.
Qed.

End LayoutShape.

Section Placement.

(** ** The floating window *)

(** Property X6.  When the parent's screen meets the wanted window and is at
    least as large as the largest popup, [adjustByScreenGeometry] returns a
    window between the left and the right edge of the screen that is still
    at least as wide as the largest popup; it keeps the vertical position
    and the height. *)
Theorem adjustByScreenGeometry_clamps W geometry s screen :
  parent_screen W = Some screen ->
  intersects screen geometry = true ->
  size_width (_maxOuterSize s) <= rect_width screen ->
  size_height (_maxOuterSize s) <= rect_height screen ->
  let r := adjustByScreenGeometry W geometry s in
  inside_horizontally r screen
  /\ size_width (_maxOuterSize s) <= rect_width r
  /\ rect_y r = rect_y geometry
  /\ rect_height r = rect_height geometry.
Proof.
  intros Hscreen Hmeet Hw Hh.
  unfold adjustByScreenGeometry, inside_horizontally.
  rewrite Hscreen, Hmeet.
  rewrite (proj2 (Z.ltb_ge _ _) Hw), (proj2 (Z.ltb_ge _ _) Hh).
  cbn [negb orb rect_x rect_y rect_width rect_height]. lia.
Qed.

(** Property X7.  A window that already lies between the left and the right
    edge of the parent's screen and is at least as wide as the largest
    popup is returned as it is, whatever the screen's size. *)
Theorem adjustByScreenGeometry_fixes W geometry s screen :
  parent_screen W = Some screen ->
  inside_horizontally geometry screen ->
  size_width (_maxOuterSize s) <= rect_width geometry ->
  adjustByScreenGeometry W geometry s = geometry.
Proof.
  intros Hscreen [Hleft Hright] Hw.
  unfold adjustByScreenGeometry. rewrite Hscreen.
  destruct (_ || _); [reflexivity |].
  destruct geometry as [x y w h].
  cbn [rect_x rect_y rect_width rect_height] in *.
  f_equal; lia.
Qed.

(** Property X8.  Wherever the parent is and whatever the screen,
    [updateWindowGlobalPosition] gives the window the height of the
    largest popup, with its bottom edge at the top of the parent, and at
    least the width of the largest popup.  Without a screen the window
    reaches from half the smallest popup left of the parent to half the
    largest popup right of it. *)
Theorem updateWindowGlobalPosition_window W global globalX s :
  let g :=
    widget_geometry (_widget (updateWindowGlobalPosition W global globalX s))
  in
  rect_height g = size_height (_maxOuterSize s)
  /\ rect_y g + rect_height g = point_y global
  /\ size_width (_maxOuterSize s) <= rect_width g
  /\ (parent_screen W = None ->
      rect_x g <= point_x global - Z.quot (size_width (_minOuterSize s)) 2
      /\ point_x global + parent_width W
         + Z.quot (size_width (_maxOuterSize s)) 2
         <= rect_x g + rect_width g).
Proof.
  members_of s. destruct widget as [g0 h0 c0], global as [gx gy].
  destruct W as [pos pw pglobal screen chain top].
  cbv - [Z.add Z.sub Z.mul Z.opp Z.max Z.min Z.quot Z.le Z.lt Z.ltb Z.leb
         Z.eqb negb orb andb intersects].
  destruct screen as [screen |]; [destruct (_ || _) |]; destruct window;
    cbv beta iota; repeat split; try lia; discriminate.
Qed.

(** Property X9.  In floating-window mode [updateOuterPosition] keeps the
    size of the outer rect, pins its bottom edge to the height of the
    largest popup and never lets it start left of the window; when the
    window is at least as wide as the rect, the rect ends inside the
    window; and when there is room, the rect is centered on the cursor. *)
Theorem updateOuterPosition_inside globalX s :
  _window s = true ->
  let o := _outer (updateOuterPosition globalX s) in
  let g := widget_geometry (_widget s) in
  let wanted := globalX - Z.quot (rect_width (_outer s)) 2 - rect_x g in
  rect_size o = rect_size (_outer s)
  /\ 0 <= rect_x o
  /\ rect_y o + rect_height o = size_height (_maxOuterSize s)
  /\ (rect_width (_outer s) <= rect_width g ->
      rect_x o + rect_width o <= rect_width g)
  /\ (0 <= wanted <= rect_width g - rect_width (_outer s) ->
      rect_x o = wanted).
Proof.
  intros Hwindow. members_of s. cbn in Hwindow. subst.
  destruct widget as [g0 h0 c0], outer as [x y w h].
  cbv - [Z.add Z.sub Z.mul Z.opp Z.max Z.min Z.quot Z.le Z.lt].
  repeat split; lia.
Qed.

(** Property X10.  In floating-window mode the anchor that
    [updateGlobalPosition(globalX)] stores makes the event filter's
    [updateGlobalPosition()] find the same place again: while the parent
    has not moved, the repositioning leaves the window, the outer rect and
    the anchor where they are. *)
Theorem reposition_restores W globalX s :
  _window s = true ->
  let a := updateGlobalPosition W globalX s in
  let b := updateGlobalPosition_filter W a in
  _localShiftLeft a = globalX - point_x (parent_global W)
  /\ widget_geometry (_widget b) = widget_geometry (_widget a)
  /\ _outer b = _outer a
  /\ steady b = steady a.
Proof.
  intros Hwindow. members_of s. cbn in Hwindow. subst.
  destruct widget as [g0 h0 c0], outer as [x y w h].
  destruct W as [pos pw [gx gy] screen chain top].
  cbv - [Z.add Z.sub Z.mul Z.opp Z.max Z.min Z.quot Z.le Z.lt Z.ltb Z.leb
         Z.eqb negb orb andb intersects].
  replace (gx + (globalX - gx)) with globalX by lia.
  destruct screen as [screen |]; [destruct (_ || _) |]; repeat split.
Qed.

(** Property X11.  The event filter is installed on the widgets of the parent
    chain, from the parent upwards: on all of them in floating-window mode;
    in embedded mode up to and including the first one that is the window
    of the preview's widget, or on all of them when none is. *)
Theorem watch_chain top chain :
  watch true top chain = chain
  /\ prefix_of (watch false top chain) chain
  /\ (~ In top chain -> watch false top chain = chain)
  /\ (forall pre post,
        chain = pre ++ top :: post -> ~ In top pre ->
        watch false top chain = pre ++ [top]).
Proof.
  split; [| split; [| split]].
  - induction chain as [| w chain IH]; cbn; [reflexivity | now rewrite IH].
  - induction chain as [| w chain IH]; [now exists [] |].
    cbn. destruct (w =? top).
    + now exists chain.
    + destruct IH as [post Hpost]. exists post. cbn. now rewrite <- Hpost.
  - induction chain as [| w chain IH]; intros Hnot; [reflexivity |].
    cbn. destruct (Z.eqb_spec w top) as [-> | Hne].
    + exfalso. apply Hnot. now left.
    + f_equal. apply IH. intros Hin. apply Hnot. now right.
  - intros pre. revert chain.
    induction pre as [| w pre IH]; intros chain post -> Hnot.
    + cbn. now rewrite Z.eqb_refl.
    + cbn. destruct (Z.eqb_spec w top) as [-> | Hne].
      * exfalso. apply Hnot. now left.
      * f_equal. apply (IH _ post eq_refl).
        intros Hin. apply Hnot. now right.
Qed.

End Placement.

Section MoreVisibility.

Variable E : Externals.

(** ** The event filter follows the visibility target *)

Lemma controls_filter s t :
  controls t = controls s -> filter_tracks_shown s -> filter_tracks_shown t.
Proof.
  unfold controls, filter_tracks_shown. intros H Hs.
  assert (Hshown : _shown t = _shown s) by now injection H.
  assert (Hfilter : _filter t = _filter s) by now injection H.
  now rewrite Hshown, Hfilter.
Qed.

Lemma toggleShown_filter W sh s :
  filter_tracks_shown s -> filter_tracks_shown (toggleShown E W sh s).
Proof.
  members_of s. destruct widget as [g h c]. unfold filter_tracks_shown.
  cbn. intros Hs. destruct shown, sh, h, filter; try discriminate;
    reflexivity.
Qed.

Lemma toggle_filter W show scale globalX s :
  filter_tracks_shown s ->
  filter_tracks_shown (toggle E W show scale globalX s).
Proof.
  intros Hs. unfold toggle.
  assert (Hprepared :
    filter_tracks_shown
      (updateGlobalPosition W globalX (updateToScale E scale s))).
  { apply (controls_filter s); [| exact Hs].
    now rewrite controls_updateGlobalPosition, controls_updateToScale. }
  assert (Hoverlay : forall t,
    filter_tracks_shown t ->
    filter_tracks_shown
      (if widget_hidden (_widget t) then add_effect UpdateOverlayed t else t)).
  { intros t Ht. destruct (widget_hidden (_widget t)); [| exact Ht].
    apply (controls_filter t); [| exact Ht]. members_of t. reflexivity. }
  destruct show.
  - now apply toggleShown_filter.
  - apply toggleShown_filter. now apply Hoverlay.
  - destruct (negb (_shown s)); [exact Hs |].
    apply toggleShown_filter. now apply Hoverlay.
Qed.

Lemma shownCallback_filter s :
  filter_tracks_shown s -> filter_tracks_shown (shownCallback s).
Proof.
  members_of s. unfold filter_tracks_shown. cbn.
  destruct shown, animation; cbn; auto.
Qed.

Lemma handle_filter W e s :
  filter_tracks_shown s -> filter_tracks_shown (handle E W e s).
Proof.
  intros Hs. destruct e; cbn [handle].
  - now apply toggle_filter.
  - apply (controls_filter s); [| exact Hs].
    members_of s. unfold on_userpic. cbn. decide_conditions; reflexivity.
  - apply (controls_filter s); [| exact Hs]. members_of s. reflexivity.
  - apply (controls_filter s); [| exact Hs]. apply controls_on_paintRequest.
  - unfold on_ancestorEvent. destruct (_filter s) eqn:Hf; [| exact Hs].
    destruct (_ && _); [| exact Hs].
    apply (controls_filter s); [| exact Hs].
    apply controls_updateWindowGlobalPosition.
  - unfold checkDeactivation. destruct (_filter s) eqn:Hf; [| exact Hs].
    destruct state; try exact Hs; now apply toggle_filter.
  - unfold on_animationTick. destruct (_shownAnimation s) eqn:Ha; [| exact Hs].
    apply shownCallback_filter.
    revert Hs. members_of s. unfold filter_tracks_shown. cbn. auto.
  - unfold on_animationFinished.
    destruct (_shownAnimation s) eqn:Ha; [| exact Hs].
    apply shownCallback_filter.
    revert Hs. members_of s. unfold filter_tracks_shown. cbn. auto.
Qed.

Lemma filter_init s :
  filter_tracks_shown s -> filter_tracks_shown (init E s).
Proof.
  assert (Hkeep : forall t u,
            (_shown u, _filter u) = (_shown t, _filter t) ->
            filter_tracks_shown t -> filter_tracks_shown u).
  { unfold filter_tracks_shown. intros t u H Ht.
    injection H as Hshown Hfilter. now rewrite Hshown, Hfilter. }
  assert (Hupdate : forall scale t,
            filter_tracks_shown t ->
            filter_tracks_shown (updateToScale E scale t)).
  { intros scale t. apply controls_filter, controls_updateToScale. }
  assert (Hmin : forall v t,
            filter_tracks_shown t -> filter_tracks_shown (set_minOuterSize v t))
    by (intros v t; apply Hkeep; members_of t; reflexivity).
  assert (Hmax : forall v t,
            filter_tracks_shown t -> filter_tracks_shown (set_maxOuterSize v t))
    by (intros v t; apply Hkeep; members_of t; reflexivity).
  assert (Hwindow : forall t,
            filter_tracks_shown t -> filter_tracks_shown (initAsWindow t))
    by (intros t; apply Hkeep; members_of t; reflexivity).
  assert (Htheme : forall v t,
            filter_tracks_shown t -> filter_tracks_shown (set_theme v t))
    by (intros v t; apply Hkeep; members_of t; reflexivity).
  intros Hs. unfold init. destruct (_window _).
  - cbv zeta. apply Hmax, Hupdate, Hmin, Hupdate, Hwindow, Htheme, Hs.
  - apply Htheme, Hs.
Qed.

Lemma Preview_new_filter fresh producer :
  filter_tracks_shown (Preview_new E fresh producer).
Proof.
  unfold Preview_new. cbv zeta. apply filter_init.
  generalize (members E fresh)
    (eq_refl : filter_tracks_shown (members E fresh)).
  induction producer as [| image images IH]; intros s Hs; [exact Hs |].
  apply IH. revert Hs. members_of s. unfold on_userpic, filter_tracks_shown.
  cbn. destruct (isNull userpicImage); auto.
Qed.

Lemma filter_tracks_shown_reachable s :
  reachable E s -> filter_tracks_shown s.
Proof.
  induction 1 as [fresh producer | W e s Hs IH].
  - apply Preview_new_filter.
  - now apply handle_filter.
Qed.

(** Property X12.  On every object that the event loop reaches, the event
    filter exists exactly while the preview is to be shown: it is installed
    by the request that shows the preview and removed by the one that
    hides it. *)
Theorem reachable_filter_tracks_shown s :
  reachable E s ->
  (_shown s = true -> exists watched, _filter s = Some watched)
  /\ (_shown s = false -> _filter s = None).
Proof.
  intros Hs. apply filter_tracks_shown_reachable in Hs.
  unfold filter_tracks_shown in Hs.
  destruct (_filter s) as [watched |]; rewrite Hs; split; intros H;
    try discriminate; eauto.
Qed.

(** Property X13.  When the application stops being active, the preview is
    hidden: on every reachable object the state change does what a [Hide]
    request does, and a change to the active state does nothing.  While the
    preview is hidden, events of its ancestors do nothing either. *)
Theorem deactivation_hides W s :
  reachable E s ->
  (forall state,
     handle E W (ApplicationStateChanged state) s
     = match state with
       | ApplicationActive => s
       | _ => toggle E W Hide 0 0 s
       end)
  /\ (_shown s = false ->
      forall widget type, handle E W (AncestorEvent widget type) s = s).
Proof.
  intros Hs. apply filter_tracks_shown_reachable in Hs.
  unfold filter_tracks_shown in Hs. split.
  - intros state. cbn [handle]. unfold checkDeactivation.
    destruct (_filter s); [reflexivity |].
    destruct state; try reflexivity;
      unfold toggle, toggleShown; now rewrite Hs.
  - intros Hshown widget type. cbn [handle]. unfold on_ancestorEvent.
    destruct (_filter s); [congruence | reflexivity].
Qed.

(** ** Requests on a shown preview *)

(** Property X14.  On a reachable object whose preview is shown, a [Show] or
    an [Update] request is the relayout followed by the placement and
    nothing else: the widget is not shown again, the animation is not
    restarted and the event filter stays. *)
Theorem toggle_while_shown W show scale globalX s :
  reachable E s ->
  _shown s = true ->
  show <> Hide ->
  toggle E W show scale globalX s
  = updateGlobalPosition W globalX (updateToScale E scale s)
  /\ controls (toggle E W show scale globalX s) = controls s.
Proof.
  intros Hreachable Hshown Hshow.
  pose proof (reachable_shown_is_visible E s Hreachable Hshown) as Hvisible.
  assert (Hcontrols :
    controls (updateGlobalPosition W globalX (updateToScale E scale s))
    = controls s)
    by now rewrite controls_updateGlobalPosition, controls_updateToScale.
  assert (Heq : toggle E W show scale globalX s
                = updateGlobalPosition W globalX (updateToScale E scale s)).
  { unfold toggle.
    set (t := updateGlobalPosition W globalX (updateToScale E scale s)) in *.
    clearbody t.
    assert (Ht : _shown t = true /\ widget_hidden (_widget t) = false).
    { unfold controls in Hcontrols. injection Hcontrols. intros.
      split; congruence. }
    destruct Ht as [Hts Hth].
    destruct show; [congruence | |]; rewrite ?Hshown; cbn [negb];
      rewrite Hth; unfold toggleShown; now rewrite Hts. }
  split; [exact Heq | now rewrite Heq].
Qed.

(** ** Showing a hidden preview *)

Lemma showing_tick p s t v :
  showing p s t -> showing p s (on_animationTick v t).
Proof.
  intros (Hshown & Hhidden & Hcount & tween & Hanim & Hfrom & Hto).
  members_of t. cbn in Hshown, Hhidden, Hcount, Hanim. subst.
  destruct tween as [f x target d]. cbn in Hto. subst.
  destruct widget as [g h c]. cbn in Hhidden. subst.
  unfold showing. cbv - [count_hides].
  repeat split; try assumption.
  eexists. repeat split.
Qed.

Lemma showing_ticks p s values :
  forall t, showing p s t -> showing p s (ticks values t).
Proof.
  induction values as [| v values IH]; intros t Ht; [exact Ht |].
  apply (IH (on_animationTick v t)). now apply showing_tick.
Qed.

Lemma showing_finished p s t :
  showing p s t ->
  let t' := on_animationFinished t in
  _shown t' = true
  /\ widget_hidden (_widget t') = false
  /\ _shownAnimation t' = None
  /\ count_hides (effects t') = count_hides (effects s).
Proof.
  intros (Hshown & Hhidden & Hcount & tween & Hanim & Hfrom & Hto).
  members_of t. cbn in Hshown, Hhidden, Hcount, Hanim. subst.
  destruct widget as [g h c]. cbn in Hhidden. subst.
  cbv - [count_hides]. cbn [count_hides]. repeat split. exact Hcount.
Qed.

(** Property X15.  A [Show] request on a reachable object whose preview is
    hidden (also while its hide animation is still running) lays the
    preview out for the requested scale, shows the widget, installs the
    event filter on the parent chain and starts an interpolation from the
    current progress to 1.  No tick of that interpolation hides the
    widget, the completing one included, after which the progress is 1. *)
Theorem toggle_Show_while_hidden W scale globalX s :
  reachable E s ->
  _shown s = false ->
  let s' := toggle E W Show scale globalX s in
  _scale s' = scale
  /\ _filter s'
     = Some (watch (_window s) (widget_window W) (parent_chain W))
  /\ _shownAnimation s'
     = Some (mkTween (progress s) (progress s) 1 (slideWrapDuration E))
  /\ (exists before,
        effects s'
        = AnimationStart 0 1 (slideWrapDuration E) :: WidgetShow :: before)
  /\ (forall values, showing (progress s) s (ticks values s'))
  /\ (forall values,
        let t := on_animationFinished (ticks values s') in
        _shown t = true
        /\ widget_hidden (_widget t) = false
        /\ _shownAnimation t = None
        /\ count_hides (effects t) = count_hides (effects s)).
Proof.
  intros Hreachable Hshown.
  pose proof (filter_tracks_shown_reachable s Hreachable) as Hfilter.
  unfold filter_tracks_shown in Hfilter. rewrite Hshown in Hfilter.
  assert (Hnone : _filter s = None)
    by (destruct (_filter s); [discriminate | reflexivity]).
  clear Hfilter Hreachable.
  assert (Hstart :
    let s' := toggle E W Show scale globalX s in
    showing (progress s) s s'
    /\ _scale s' = scale
    /\ _filter s'
       = Some (watch (_window s) (widget_window W) (parent_chain W))
    /\ _shownAnimation s'
       = Some (mkTween (progress s) (progress s) 1 (slideWrapDuration E))
    /\ exists before,
         effects s'
         = AnimationStart 0 1 (slideWrapDuration E) :: WidgetShow :: before).
  { unfold toggle.
    set (prepared :=
           updateGlobalPosition W globalX (updateToScale E scale s)).
    assert (Hcontrols : controls prepared = controls s)
      by (unfold prepared;
          now rewrite controls_updateGlobalPosition, controls_updateToScale).
    assert (Hscale : _scale prepared = scale).
    { unfold prepared.
      pose proof (cache_view_updateGlobalPosition W globalX
                    (updateToScale E scale s)) as Hview.
      unfold cache_view in Hview.
      assert (Hs : _scale (updateGlobalPosition W globalX
                             (updateToScale E scale s))
                   = _scale (updateToScale E scale s))
        by now injection Hview.
      rewrite Hs. apply updateToScale_scale. }
    clearbody prepared.
    set (t := if widget_hidden (_widget prepared)
              then add_effect UpdateOverlayed prepared else prepared).
    assert (Ht : controls t = controls s /\ _scale t = scale).
    { unfold t. destruct (widget_hidden (_widget prepared)) eqn:Hh;
        [| now split].
      rewrite <- Hcontrols, <- Hscale. members_of prepared.
      cbn in Hh. subst. split; reflexivity. }
    clearbody t. clear Hcontrols Hscale prepared.
    destruct Ht as [Hcontrols Hscale].
    unfold progress. rewrite Hshown.
    unfold controls in Hcontrols. rewrite Hshown, Hnone in Hcontrols.
    members_of t. destruct widget as [g h c].
    cbn in Hscale, Hcontrols. injection Hcontrols as -> -> -> _ -> Hcount.
    subst. unfold showing.
    cbv - [count_hides slideWrapDuration watch Simple_value].
    cbn [count_hides]. rewrite Hcount.
    repeat split; eauto. }
  destruct Hstart as (Hshowing & Hscale & Hf & Hanim & Heffects).
  split; [exact Hscale | split; [exact Hf | split; [exact Hanim |]]].
  split; [exact Heffects | split].
  - intros values. now apply showing_ticks.
  - intros values. apply (showing_finished (progress s) s).
    now apply showing_ticks.
Qed.

End MoreVisibility.

Section Caches.

Variable E : Externals.

(** ** Painting and the cached assets *)

(** Property X16.  A paint request changes nothing of the object but the
    cached assets, the canvas and the effect trace: scale, text runs,
    rects, placement, widget and visibility controller are as before.  A
    request whose clip misses the outer rect does not touch the assets or
    the canvas either; one whose clip meets it leaves the shadow bitmaps
    built. *)
Theorem on_paintRequest_frame clip s :
  let s' := on_paintRequest E clip s in
  steady s' = steady s
  /\ (rect_isEmpty (intersected clip (_outer s)) = true ->
      cache_view s' = cache_view s /\ _canvas s' = _canvas s)
  /\ (rect_isEmpty (intersected clip (_outer s)) = false ->
      isNull (a0 (_shadowSides s')) = false).
Proof.
  split; [apply steady_on_paintRequest | split].
  - intros Hmiss. unfold on_paintRequest, paint. rewrite Hmiss.
    members_of s. split; reflexivity.
  - intros Hmeet. unfold on_paintRequest, paint. rewrite Hmeet. clear Hmeet.
    set (local := translated _ _).
    assert (Hlayer : forall q,
              isNull (a0 (_shadowSides (fst (paintLayer E q local s))))
              = false).
    { intros q. unfold paintLayer.
      assert (Hbuilt : isNull (a0 (_shadowSides (validateShadowCache s)))
                       = false).
      { members_of s. unfold validateShadowCache. cbn.
        destruct (isNull (a0 shadowSides)) eqn:Hnull; cbn;
          [reflexivity | exact Hnull]. }
      set (s1 := validateShadowCache s) in *. clearbody s1.
      destruct (rect_isEmpty _); [exact Hbuilt |].
      match goal with
      | |- context [paintInner E ?q' ?c' s1] =>
          pose proof (fst_paintInner E q' c' s1) as Hi;
          destruct (paintInner E q' c' s1) as [s2 q2]
      end.
      cbn [fst] in *. subst s2.
      destruct (rect_isEmpty _); revert Hbuilt; members_of s1;
        unfold validateBubbleCache, validateUserpicCache; cbn;
        decide_conditions; auto. }
    specialize (Hlayer [SetClipRect local]).
    destruct (paintLayer E [SetClipRect local] local s) as [s1 q1].
    cbn [fst] in Hlayer. revert Hlayer. members_of s1. cbn. auto.
Qed.

(** Property X17.  A paint request reuses every asset that is there: a
    userpic bitmap, bubble assets or shadow bitmaps that are not empty
    before the request are the same after it. *)
Theorem on_paintRequest_reuses clip s :
  let s' := on_paintRequest E clip s in
  (isNull (_userpicImage s) = false -> _userpicImage s' = _userpicImage s)
  /\ (isNull (a0 (_bubbleCorners s)) = false ->
      (_bubbleCorners s', _bubbleTail s', _bubbleShadowBottomRight s')
      = (_bubbleCorners s, _bubbleTail s, _bubbleShadowBottomRight s))
  /\ (isNull (a0 (_shadowSides s)) = false ->
      (_shadowSides s', _shadowCorners s')
      = (_shadowSides s, _shadowCorners s)).
Proof.
  cbv zeta.
  apply (on_paintRequest_keeps E
           (fun t =>
              (isNull (_userpicImage s) = false ->
               _userpicImage t = _userpicImage s)
              /\ (isNull (a0 (_bubbleCorners s)) = false ->
                  (_bubbleCorners t, _bubbleTail t,
                   _bubbleShadowBottomRight t)
                  = (_bubbleCorners s, _bubbleTail s,
                     _bubbleShadowBottomRight s))
              /\ (isNull (a0 (_shadowSides s)) = false ->
                  (_shadowSides t, _shadowCorners t)
                  = (_shadowSides s, _shadowCorners s)))).
  - intros t (Hu & Hb & Hs). members_of t. unfold validateShadowCache.
    cbn in *. destruct (isNull (a0 shadowSides)) eqn:Hnull; cbn;
      repeat split; auto.
    intros Hthere. specialize (Hs Hthere). injection Hs as Hsides _.
    rewrite Hsides in Hnull. congruence.
  - intros t (Hu & Hb & Hs). members_of t. unfold validateBubbleCache.
    cbn in *. destruct (isNull (a0 bubbleCorners)) eqn:Hnull; cbn;
      repeat split; auto.
    intros Hthere. specialize (Hb Hthere). injection Hb as Hcorners _ _.
    rewrite Hcorners in Hnull. congruence.
  - intros t (Hu & Hb & Hs). members_of t. unfold validateUserpicCache.
    cbn in *. destruct (isNull userpicImage) eqn:Hnull; cbn;
      [| repeat split; auto ].
    destruct (_ || _); cbn; repeat split; auto;
      intros Hthere; specialize (Hu Hthere); rewrite Hu in Hnull;
      congruence.
  - intros v t H. members_of t. exact H.
  - intros target ops t H. members_of t. exact H.
  - repeat split.
Qed.

(** ** Cached assets fit what is stored *)

Lemma coherent_view s t :
  cache_view t = cache_view s -> coherent E s -> coherent E t.
Proof.
  unfold cache_view, coherent, built_userpic, built_bubbleCorners,
    built_shadowSides, built_shadowCorners, scaled.
  intros H Hs. injection H. intros.
  repeat match goal with
         | Heq : _ t = _ s |- _ => rewrite Heq; clear Heq
         end.
  exact Hs.
Qed.

Lemma coherent_validateShadowCache s :
  coherent E s -> coherent E (validateShadowCache s).
Proof.
  members_of s. unfold coherent, validateShadowCache. cbn.
  intros (Hu & Hb & Hs).
  destruct (isNull (a0 shadowSides)) eqn:Hnull; cbn; intuition.
Qed.

Lemma coherent_validateBubbleCache s :
  coherent E s -> coherent E (validateBubbleCache E s).
Proof.
  members_of s. unfold coherent, validateBubbleCache. cbn.
  intros (Hu & Hb & Hs).
  destruct (isNull (a0 bubbleCorners)) eqn:Hnull; cbn; intuition.
Qed.

Lemma coherent_validateUserpicCache s :
  coherent E s -> coherent E (validateUserpicCache s).
Proof.
  members_of s. unfold coherent, validateUserpicCache. cbn.
  intros (Hu & Hb & Hs).
  destruct (negb (isNull userpicImage) || isNull userpicOriginal
            || rect_isEmpty userpic); cbn; intuition.
Qed.

Lemma coherent_updateToScale scale s :
  coherent E s -> coherent E (updateToScale E scale s).
Proof.
  intros Hs. unfold updateToScale.
  destruct (_scale s =? scale); [exact Hs |].
  revert Hs. members_of s. unfold coherent.
  cbv - [Z.add Z.sub Z.mul Z.opp Z.max Z.min Z.quot Z.div Z.ltb Z.leb Z.eqb
         Z.lt Z.le Z.ge Z.gt clamp isNull negb andb orb
         ConvertScale font_height maxWidth countHeight logicalSize
         slideWrapDuration].
  intros (Hu & _ & _).
  destruct (isNull userpicOriginal) eqn:Hnone; cbn [negb]; cbv beta iota;
    repeat split; try discriminate.
  exact Hu.
Qed.

Lemma coherent_on_userpic image s :
  coherent E s -> coherent E (on_userpic image s).
Proof.
  members_of s. unfold coherent, on_userpic. cbn.
  intros (Hu & Hb & Hs).
  destruct (isNull userpicImage) eqn:Hnull; cbn; intuition congruence.
Qed.

Lemma coherent_on_paletteChanged s :
  coherent E s -> coherent E (on_paletteChanged s).
Proof.
  members_of s. unfold coherent, on_paletteChanged. cbn.
  intros (Hu & Hb & Hs). intuition discriminate.
Qed.

Lemma coherent_toggle W show scale globalX s :
  coherent E s -> coherent E (toggle E W show scale globalX s).
Proof.
  intros Hs. unfold toggle.
  assert (Hshown : forall sh t, coherent E t -> coherent E (toggleShown E W sh t))
    by (intros sh t; apply coherent_view, cache_view_toggleShown).
  assert (Hprepared : forall t,
    coherent E t ->
    coherent E
      (if widget_hidden (_widget t) then add_effect UpdateOverlayed t else t)).
  { intros t Ht. destruct (widget_hidden (_widget t)); [| exact Ht].
    apply (coherent_view t); [| exact Ht]. members_of t. reflexivity. }
  assert (Hplaced :
    coherent E (updateGlobalPosition W globalX (updateToScale E scale s))).
  { apply (coherent_view (updateToScale E scale s)).
    - apply cache_view_updateGlobalPosition.
    - now apply coherent_updateToScale. }
  destruct show.
  - now apply Hshown.
  - now apply Hshown, Hprepared.
  - destruct (negb (_shown s)); [exact Hs |]. now apply Hshown, Hprepared.
Qed.

Lemma coherent_handle W e s :
  coherent E s -> coherent E (handle E W e s).
Proof.
  intros Hs. destruct e; cbn [handle].
  - now apply coherent_toggle.
  - now apply coherent_on_userpic.
  - now apply coherent_on_paletteChanged.
  - apply (on_paintRequest_keeps E (coherent E)); try assumption.
    + apply coherent_validateShadowCache.
    + apply coherent_validateBubbleCache.
    + apply coherent_validateUserpicCache.
    + intros v t. apply coherent_view. members_of t. reflexivity.
    + intros target ops t. apply coherent_view. members_of t. reflexivity.
  - unfold on_ancestorEvent. destruct (_filter s); [| exact Hs].
    destruct (_ && _); [| exact Hs].
    apply (coherent_view s); [| exact Hs].
    apply cache_view_updateWindowGlobalPosition.
  - unfold checkDeactivation. destruct (_filter s); [| exact Hs].
    destruct state; try exact Hs; now apply coherent_toggle.
  - unfold on_animationTick. destruct (_shownAnimation s); [| exact Hs].
    apply (coherent_view s); [| exact Hs].
    rewrite cache_view_shownCallback. members_of s. reflexivity.
  - unfold on_animationFinished. destruct (_shownAnimation s); [| exact Hs].
    apply (coherent_view s); [| exact Hs].
    rewrite cache_view_shownCallback. members_of s. reflexivity.
Qed.

Lemma coherent_init s : coherent E s -> coherent E (init E s).
Proof.
  assert (Hmin : forall v t, coherent E t -> coherent E (set_minOuterSize v t))
    by (intros v t; apply coherent_view; members_of t; reflexivity).
  assert (Hmax : forall v t, coherent E t -> coherent E (set_maxOuterSize v t))
    by (intros v t; apply coherent_view; members_of t; reflexivity).
  assert (Hwindow : forall t, coherent E t -> coherent E (initAsWindow t))
    by (intros t; apply coherent_view; members_of t; reflexivity).
  assert (Htheme : forall v t, coherent E t -> coherent E (set_theme v t))
    by (intros v t; apply coherent_view; members_of t; reflexivity).
  intros Hs. unfold init. destruct (_window _).
  - cbv zeta.
    apply Hmax, coherent_updateToScale, Hmin, coherent_updateToScale,
      Hwindow, Htheme, Hs.
  - apply Htheme, Hs.
Qed.

Lemma coherent_Preview_new fresh producer :
  coherent E (Preview_new E fresh producer).
Proof.
  unfold Preview_new. cbv zeta. apply coherent_init.
  assert (Hmembers : coherent E (members E fresh))
    by (unfold coherent; cbn; repeat split; discriminate).
  revert Hmembers. generalize (members E fresh).
  induction producer as [| image images IH]; intros s Hs; [exact Hs |].
  apply IH. now apply coherent_on_userpic.
Qed.

Lemma coherent_reachable s : reachable E s -> coherent E s.
Proof.
  induction 1 as [fresh producer | W e s Hs IH].
  - apply coherent_Preview_new.
  - now apply coherent_handle.
Qed.

(** Property X18.  On every object that the event loop reaches, a cached
    asset that is not empty fits what is stored now.  The userpic bitmap
    is the circle cut from the stored source image, in the size of the
    stored userpic rect (where [paintUserpic] draws it) times the ratio.
    The bubble corners, the tail and the bottom-right shadow corner are
    built at the stored scale, radius [scaled(16)]; the shadow sides and
    corners are the eight [callShadow] icons at the stored scale.  The
    colours of the bubble and shadow assets are left open: nothing is said
    on the palette they were tinted with.  Nor is the userpic rect said to
    be that of the stored scale. *)
Theorem reachable_assets_fit s :
  reachable E s ->
  (isNull (_userpicImage s) = false ->
   _userpicImage s
   = CircleImage (_userpicOriginal s)
       (size_mul (rect_size (_userpic s)) (_ratio s)) (_ratio s))
  /\ (isNull (a0 (_bubbleCorners s)) = false ->
      exists bg shadow,
        _bubbleCorners s
        = mkArray4 (CornerPixmap (scaled E s 16) bg 0)
                   (CornerPixmap (scaled E s 16) bg 1)
                   NullImage
                   (CornerPixmap (scaled E s 16) bg 3)
        /\ _bubbleTail s = IconInstance historyBubbleTailInLeft bg (_scale s)
        /\ _bubbleShadowBottomRight s
           = CornerPixmap (scaled E s 16) shadow 3)
  /\ (isNull (a0 (_shadowSides s)) = false ->
      exists colour,
        _shadowSides s
        = mkArray4 (IconInstance callShadow_left colour (_scale s))
                   (IconInstance callShadow_top colour (_scale s))
                   (IconInstance callShadow_right colour (_scale s))
                   (IconInstance callShadow_bottom colour (_scale s))
        /\ _shadowCorners s
           = mkArray4 (IconInstance callShadow_topLeft colour (_scale s))
                      (IconInstance callShadow_bottomLeft colour (_scale s))
                      (IconInstance callShadow_topRight colour (_scale s))
                      (IconInstance callShadow_bottomRight colour
                         (_scale s))).
Proof.
  intros Hs. destruct (coherent_reachable s Hs) as (Hu & Hb & Hsh).
  split; [exact Hu | split].
  - intros Hthere. exists msgInBg, msgInShadow. exact (Hb Hthere).
  - intros Hthere. exists windowShadowFg. exact (Hsh Hthere).
Qed.

End Caches.

Section Construction.

Variable E : Externals.

(** ** A fresh object *)

Lemma last_cons (i : QImage) rest : forall d, last (i :: rest) d = last rest i.
Proof.
  revert i. induction rest as [| q rest IH]; intros i d; [reflexivity |].
  change (last (i :: q :: rest) d) with (last (q :: rest) d).
  now rewrite (IH q d), (IH q i).
Qed.

(** While the cached bitmap is empty the handler of the stream only
    stores what arrives. *)
Lemma producer_delivered fresh producer :
  forall image,
    fold_left (fun s i => on_userpic i s) producer
      (set_userpicOriginal image (members E fresh))
    = set_userpicOriginal (last producer image) (members E fresh).
Proof.
  induction producer as [| i producer IH]; intros image; [reflexivity |].
  cbn [fold_left].
  change (on_userpic i (set_userpicOriginal image (members E fresh)))
    with (set_userpicOriginal i (members E fresh)).
  now rewrite IH, last_cons.
Qed.

Lemma untouched_updateToScale scale s :
  isNull (_userpicImage s) = true ->
  untouched_by_init (updateToScale E scale s) = untouched_by_init s
  /\ _widget (updateToScale E scale s) = _widget s.
Proof.
  unfold updateToScale. destruct (_scale s =? scale); [now split |].
  members_of s. evaluate. intros Hnull.
  destruct (isNull userpicOriginal); cbn [negb]; cbv beta iota;
    rewrite ?Hnull; now split.
Qed.

Lemma untouched_null s t :
  untouched_by_init s = untouched_by_init t ->
  isNull (_userpicImage s) = isNull (_userpicImage t).
Proof. intros H. now injection H. Qed.

(** Property X19.  A fresh preview is hidden: no visibility target, no event
    filter, no animation, no cached userpic bitmap; its source image is
    the last one the producer handed over while being subscribed to.  In
    embedded mode nothing else has happened: no layout, no call on the
    widget, no repaint request.  In floating-window mode the widget has
    been hidden and configured as a frameless, mouse-transparent,
    translucent tooltip, the preview is laid out at the largest scale
    ([kScaleMax / ratio]) and the size of that layout is the largest
    popup size. *)
Theorem Preview_new_state fresh producer :
  let s := Preview_new E fresh producer in
  (_shown s, _filter s, _shownAnimation s) = (false, None, None)
  /\ _userpicOriginal s = last producer NullImage
  /\ isNull (_userpicImage s) = true
  /\ (UseSeparateWindow E = false ->
      s = set_theme (ThemeBackground (themeBackground E))
            (set_userpicOriginal (last producer NullImage)
               (members E fresh)))
  /\ (UseSeparateWindow E = true ->
      _scale s = Z.quot (kScaleMax E) (DevicePixelRatio E)
      /\ _maxOuterSize s = rect_size (_outer s)
      /\ widget_hidden (_widget s) = true
      /\ widget_geometry (_widget s) = widget_geometry fresh
      /\ widget_settings (_widget s)
         = widget_settings fresh
           ++ [FramelessToolTipFlags; WA_TransparentForMouseEvents;
               WA_NoSystemBackground; WA_TranslucentBackground]).
Proof.
  cbv zeta. unfold Preview_new. cbv zeta.
  rewrite (producer_delivered fresh producer NullImage : 
             fold_left _ producer (members E fresh) = _).
  generalize (last producer NullImage). intros image.
  assert (Hmin : forall v t,
            untouched_by_init (set_minOuterSize v t) = untouched_by_init t
            /\ _widget (set_minOuterSize v t) = _widget t
            /\ _scale (set_minOuterSize v t) = _scale t)
    by (intros v t; members_of t; now repeat split).
  assert (Hmax : forall v t,
            untouched_by_init (set_maxOuterSize v t) = untouched_by_init t
            /\ _widget (set_maxOuterSize v t) = _widget t
            /\ _scale (set_maxOuterSize v t) = _scale t
            /\ _maxOuterSize (set_maxOuterSize v t) = v
            /\ _outer (set_maxOuterSize v t) = _outer t)
    by (intros v t; members_of t; now repeat split).
  assert (Hwindow : forall t,
            untouched_by_init (initAsWindow t) = untouched_by_init t
            /\ _widget (initAsWindow t)
               = mkWidget (widget_geometry (_widget t)) true
                   (widget_settings (_widget t)
                    ++ [FramelessToolTipFlags; WA_TransparentForMouseEvents;
                        WA_NoSystemBackground; WA_TranslucentBackground])).
  { intros t. members_of t. destruct widget as [g h l].
    split; [reflexivity |]. cbn. now rewrite <- !app_assoc. }
  set (s0 := set_theme (ThemeBackground (themeBackground E))
               (set_userpicOriginal image (members E fresh))).
  assert (H0 : untouched_by_init s0
               = (false, None, None, image, DevicePixelRatio E,
                  UseSeparateWindow E, true)
               /\ _widget s0 = fresh) by (split; reflexivity).
  destruct H0 as [H0 Hfresh].
  unfold init. fold s0.
  change (_window s0) with (UseSeparateWindow E).
  destruct (UseSeparateWindow E) eqn:Hmode.
  - cbv zeta.
    set (s1 := initAsWindow s0).
    destruct (Hwindow s0) as [U1 W1]. fold s1 in U1, W1.
    set (s2 := updateToScale E (kScaleMin E) s1).
    destruct (untouched_updateToScale (kScaleMin E) s1) as [U2 W2];
      [rewrite (untouched_null _ _ U1); reflexivity |]. fold s2 in U2, W2.
    set (s3 := set_minOuterSize (rect_size (_outer s2)) s2).
    destruct (Hmin (rect_size (_outer s2)) s2) as [U3 [W3 _]].
    fold s3 in U3, W3.
    assert (N3 : isNull (_userpicImage s3) = true).
    { rewrite (untouched_null _ _ U3), (untouched_null _ _ U2),
        (untouched_null _ _ U1). reflexivity. }
    set (s4 := updateToScale E (Z.quot (kScaleMax E) (_ratio s3)) s3).
    destruct (untouched_updateToScale (Z.quot (kScaleMax E) (_ratio s3)) s3 N3)
      as [U4 W4]. fold s4 in U4, W4.
    destruct (Hmax (rect_size (_outer s4)) s4) as [U5 [W5 [S5 [M5 O5]]]].
    assert (U : untouched_by_init (set_maxOuterSize (rect_size (_outer s4)) s4)
                = (false, None, None, image, DevicePixelRatio E, true, true))
      by (rewrite U5, U4, U3, U2, U1; exact H0).
    assert (R3 : _ratio s3 = DevicePixelRatio E).
    { assert (U' : untouched_by_init s3
                   = (false, None, None, image, DevicePixelRatio E, true,
                      true)) by (rewrite U3, U2, U1; exact H0).
      now injection U'. }
    remember (set_maxOuterSize (rect_size (_outer s4)) s4) as s5 eqn:Hs5.
    injection U as E1 E2 E3 E4 E5 E6 E7.
    split; [now rewrite E1, E2, E3 |]. split; [exact E4 |]. split; [exact E7 |].
    split; [discriminate |]. intros _.
    split; [rewrite S5; unfold s4; rewrite updateToScale_scale;
            now rewrite R3 |].
    split; [now rewrite M5, O5 |].
    rewrite W5, W4, W3, W2, W1, Hfresh. now repeat split.
  - split; [reflexivity |]. split; [reflexivity |]. split; [reflexivity |].
    split; [reflexivity | discriminate].
Qed.

End Construction.

Section Painting.

Variable E : Externals.

(** ** What a paint request draws *)

(** Property X20.  A paint request only paints: what it adds to the effect
    trace are records of paintings, the newest of them the one on the
    widget.  With a clip that misses the outer rect nothing is drawn at
    all.  Otherwise the widget gets the layer, at the top left corner of
    the outer rect, under the clip and with the animation progress as
    opacity; while the progress is below 1 the layer is scaled by
    [0.3 + 0.7 * progress] around the middle of the bottom edge of the
    outer rect, and from 1 on it is drawn without a transform. *)
Theorem on_paintRequest_draws clip s :
  let s' := on_paintRequest E clip s in
  let middle := rect_x (_outer s) + Z.quot (rect_width (_outer s)) 2 in
  let bottom := rect_y (_outer s) + rect_height (_outer s) in
  let k := ((3 # 10) + progress s * (7 # 10))%Q in
  exists ops added,
    effects s' = Painted OnWidget ops :: added ++ effects s
    /\ forallb is_painting added = true
    /\ (rect_isEmpty (intersected clip (_outer s)) = true ->
        ops = [] /\ added = [])
    /\ (rect_isEmpty (intersected clip (_outer s)) = false ->
        ops = [SetClipRect clip; SetOpacity (progress s)]
              ++ (if Qle_bool 1 (progress s) then []
                  else [Translate middle bottom; Scale k k;
                        Translate (- middle) (- bottom);
                        HighQualityEnabler])
              ++ [DrawImage (topLeft (_outer s)) (_layer s)]).
Proof.
  cbv zeta. unfold on_paintRequest, paint.
  destruct (rect_isEmpty (intersected clip (_outer s))) eqn:Hmeet.
  - exists [], []. split; [now members_of s |]. split; [reflexivity |].
    split; [now split | discriminate].
  - set (local := translated _ _).
    pose proof
      (paintLayer_keeps E
         (fun t =>
            steady t = steady s
            /\ exists added,
                 effects t = added ++ effects s
                 /\ forallb is_painting added = true)) as Hlayer.
    specialize (Hlayer
      ltac:(intros t [Ht [added Hi]]; split;
            [rewrite <- Ht; members_of t; unfold validateShadowCache; cbn;
             decide_conditions; reflexivity
            | exists added; revert Hi; members_of t;
              unfold validateShadowCache; cbn; decide_conditions; auto])
      ltac:(intros t [Ht [added Hi]]; split;
            [rewrite <- Ht; members_of t; unfold validateBubbleCache; cbn;
             decide_conditions; reflexivity
            | exists added; revert Hi; members_of t;
              unfold validateBubbleCache; cbn; decide_conditions; auto])
      ltac:(intros t [Ht [added Hi]]; split;
            [rewrite <- Ht; members_of t; unfold validateUserpicCache; cbn;
             decide_conditions; reflexivity
            | exists added; revert Hi; members_of t;
              unfold validateUserpicCache; cbn; decide_conditions; auto])
      ltac:(intros v t [Ht [added Hi]]; split;
            [rewrite <- Ht; members_of t; reflexivity
            | exists added; revert Hi; members_of t; auto])
      ltac:(intros target ops t [Ht [added [Hi Hp]]]; split;
            [rewrite <- Ht; members_of t; reflexivity
            | exists (Painted target ops :: added); revert Hi;
              members_of t; cbn; intros ->; now split])
      [SetClipRect local] local s
      (conj eq_refl (ex_intro _ [] (conj eq_refl eq_refl)))).
    destruct (paintLayer E [SetClipRect local] local s) as [s1 q1].
    cbn [fst] in Hlayer. destruct Hlayer as [Hsteady [added [Hadded Hp]]].
    assert (Hsame : (_outer s1, _layer s1, _shownAnimation s1, _shown s1)
                    = (_outer s, _layer s, _shownAnimation s, _shown s)).
    { unfold steady in Hsteady. injection Hsteady. intros. congruence. }
    clear Hsteady. unfold progress.
    revert Hsame Hadded. generalize (effects s) (_outer s) (_layer s)
      (_shownAnimation s) (_shown s).
    intros before o l a sh. members_of s1. cbn.
    intros Hsame ->. injection Hsame as -> -> -> ->.
    eexists. exists (Painted OnLayer q1 :: added).
    split; [reflexivity |]. split; [exact Hp |].
    split; [discriminate |]. intros _.
    destruct (Qle_bool 1 _); reflexivity.
Qed.

End Painting.

Section Constants.

Variable E : Externals.

(** ** What no event changes *)

(** Property X21.  Whatever events arrive, in whatever order, the mode
    (embedded or floating window), the pixel ratio, the theme and the
    smallest and largest popup sizes stay what they were: they are set
    during construction only. *)
Theorem run_constants W events s :
  constants (run E W events s) = constants s.
Proof.
  unfold run. revert s.
  induction events as [| e events IH]; intros s; [reflexivity |].
  cbn [fold_left]. rewrite IH. apply constants_handle.
Qed.

End Constants.

(** ** The reference instance meets the assumptions *)

Lemma convertScale_nonneg v S :
  0 <= v -> 0 <= S ->
  Reference.convertScale v S
  = if v =? 0 then 0 else Z.max 1 ((v * S + 49) / 100).
Proof.
  intros Hv HS. unfold Reference.convertScale.
  destruct (Z.ltb_spec v 0); [lia|].
  assert (0 <= v * S) by nia.
  destruct (Z.ltb_spec (v * S - 1) 0) as [Hn | Hn].
  - assert (Hz : v * S = 0) by lia. rewrite Hz.
    change (- ((50 - (0 - 1)) / 100)) with 0.
    change ((0 + 49) / 100) with 0.
    destruct (v =? 0); reflexivity.
  - replace (v * S - 1 + 50) with (v * S + 49) by lia.
    assert (0 <= (v * S + 49) / 100) by (apply Z.div_pos; lia).
    destruct (Z.eqb_spec v 0) as [-> | Hv0]; [lia|].
    cbn [orb].
    destruct (Z.eqb_spec ((v * S + 49) / 100) 0) as [-> | Hr];
      cbn [negb]; lia.
Qed.

Lemma convertScale_monotone v w S1 S2 :
  0 <= v <= w -> 0 <= S1 <= S2 ->
  0 <= Reference.convertScale v S1 <= Reference.convertScale w S2.
Proof.
  intros Hvw HS.
  rewrite !convertScale_nonneg by lia.
  destruct (Z.eqb_spec v 0) as [-> | Hv], (Z.eqb_spec w 0) as [-> | Hw];
    try lia.
  assert ((v * S1 + 49) / 100 <= (w * S2 + 49) / 100)
    by (apply Z.div_le_mono; nia).
  lia.
Qed.

Lemma reference_conversion_sane wayland scale :
  3 <= scale -> conversion_sane (Reference.externals wayland) scale.
Proof.
  intros Hs. split.
  - intros v w Hvw. apply convertScale_monotone; lia.
  - cbn [ConvertScale Reference.externals].
    rewrite !convertScale_nonneg by (unfold kMinTextWidth; lia).
    unfold kMinTextWidth.
    change (1 =? 0) with false; change (2 =? 0) with false;
    change (120 =? 0) with false; cbv iota.
    pose proof (Z.mul_div_le (1 * scale + 49) 100 ltac:(lia)).
    pose proof (Z.mul_div_le (2 * scale + 49) 100 ltac:(lia)).
    pose proof (Z.mul_succ_div_gt (120 * scale + 49) 100 ltac:(lia)).
    lia.
Qed.

Lemma reference_conversion_le wayland S1 S2 :
  0 <= S1 <= S2 -> conversion_le (Reference.externals wayland) S1 S2.
Proof.
  intros HS v w Hvw. apply convertScale_monotone; lia.
Qed.

(** ** The model at work *)

(** The layout at scale 100 without a userpic: a 196 wide content rect
    inside a 222 x 81 bubble inside a 262 x 113 card inside a 280 x 131
    popup. *)
Example layout_at_100 :
  let s := updateToScale Reference.embedded 100 Reference.initial in
  (_content s, _bubble s, _inner s, _outer s)
  = (mkRect 13 7 196 66, mkRect 20 16 222 81,
     mkRect 9 8 262 113, mkRect 0 0 280 131).
Proof. vm_compute. reflexivity. Qed.

(** With a userpic the bubble moves right by the photo skip and the
    userpic sits at the bottom left of the card. *)
Example layout_at_100_with_userpic :
  let s := updateToScale Reference.embedded 100 Reference.with_userpic in
  (_bubble s, _userpic s, _inner s, _outer s)
  = (mkRect 60 16 222 81, mkRect 20 64 33 33,
     mkRect 9 8 302 113, mkRect 0 0 320 131).
Proof. vm_compute. reflexivity. Qed.

(** In floating-window mode the constructor measures the popup at the
    smallest and at the largest scale; a show request then places the
    window over the slider and the outer rect inside the window. *)
Example floating_placement :
  (_minOuterSize Reference.floating_initial,
   _maxOuterSize Reference.floating_initial,
   widget_geometry (_widget floating_shown),
   _outer floating_shown)
  = (mkSize 234 96, mkSize 960 393,
     mkRect 120 207 960 393, mkRect 220 262 320 131).
Proof. vm_compute. reflexivity. Qed.

(** A show request on the embedded preview: relayout, placement, overlay
    update, [show()] and the start of the animation, newest first. *)
Example effects_of_show :
  effects (handle Reference.embedded Reference.world (Toggle Show 100 500)
             Reference.initial)
  = [AnimationStart 0 1 100; WidgetShow; UpdateOverlayed;
     WidgetSetGeometry (mkRect 400 600 280 131);
     WidgetUpdate QRect_null].
Proof. vm_compute. reflexivity. Qed.

(** ** Witnesses of the layout theorems *)

Lemma updateToScale_content_width_witness :
  _scale Reference.initial <> 100
  /\ ConvertScale Reference.embedded kMinTextWidth 100
     <= ConvertScale Reference.embedded kMaxTextWidth 100
  /\ rect_width (_content (updateToScale Reference.embedded 100
                             Reference.initial)) = 196.
Proof.
  assert (H1 : _scale Reference.initial <> 100) by (vm_compute; discriminate).
  assert (H2 : ConvertScale Reference.embedded kMinTextWidth 100
               <= ConvertScale Reference.embedded kMaxTextWidth 100)
    by (vm_compute; discriminate).
  split; [exact H1 | split; [exact H2 |]].
  destruct (updateToScale_content_width Reference.embedded 100
              Reference.initial H1 H2) as [Hwidth _].
  rewrite Hwidth. vm_compute. reflexivity.
Defined.

Lemma updateToScale_message_height_witness :
  _scale Reference.initial <> 100
  /\ rect_height (_message (updateToScale Reference.embedded 100
                              Reference.initial)) <= 3 * 18.
Proof.
  assert (H1 : _scale Reference.initial <> 100) by (vm_compute; discriminate).
  split; [exact H1 |].
  destruct (updateToScale_message_height Reference.embedded 100
              Reference.initial H1) as (_ & Hheight & _).
  exact Hheight.
Defined.

Lemma updateToScale_normalized_witness :
  _scale Reference.with_userpic <> 100
  /\ conversion_sane Reference.embedded 100
  /\ metrics_sane Reference.embedded
       (updateToScale Reference.embedded 100 Reference.with_userpic)
  /\ normalized (updateToScale Reference.embedded 100 Reference.with_userpic).
Proof.
  assert (H1 : _scale Reference.with_userpic <> 100)
    by (vm_compute; discriminate).
  assert (H2 : conversion_sane Reference.embedded 100)
    by (apply reference_conversion_sane; lia).
  assert (H3 : metrics_sane Reference.embedded
                 (updateToScale Reference.embedded 100
                    Reference.with_userpic))
    by (vm_compute; repeat split; discriminate).
  split; [exact H1 | split; [exact H2 | split; [exact H3 |]]].
  exact (updateToScale_normalized Reference.embedded 100
           Reference.with_userpic H1 H2 H3).
Defined.

Lemma updateToScale_monotone_witness :
  100 < 150
  /\ _scale Reference.with_userpic <> 100
  /\ _scale Reference.with_userpic <> 150
  /\ conversion_le Reference.embedded 100 150
  /\ metrics_le Reference.embedded
       (updateToScale Reference.embedded 100 Reference.with_userpic)
       (updateToScale Reference.embedded 150 Reference.with_userpic)
  /\ geometry_le
       (updateToScale Reference.embedded 100 Reference.with_userpic)
       (updateToScale Reference.embedded 150 Reference.with_userpic).
Proof.
  assert (H0 : 100 < 150) by lia.
  assert (H1 : _scale Reference.with_userpic <> 100)
    by (vm_compute; discriminate).
  assert (H2 : _scale Reference.with_userpic <> 150)
    by (vm_compute; discriminate).
  assert (H3 : conversion_le Reference.embedded 100 150)
    by (apply reference_conversion_le; lia).
  assert (H4 : metrics_le Reference.embedded
                 (updateToScale Reference.embedded 100 Reference.with_userpic)
                 (updateToScale Reference.embedded 150
                    Reference.with_userpic))
    by (vm_compute; repeat split; discriminate).
  repeat (split; [assumption |]).
  exact (updateToScale_monotone Reference.embedded Reference.with_userpic
           100 150 H0 H1 H2 H3 H4).
Defined.

Lemma toggle_Hide_frame_witness :
  _shown Reference.initial = false
  /\ toggle Reference.embedded Reference.world Hide 125 640 Reference.initial
     = Reference.initial.
Proof.
  assert (H : _shown Reference.initial = false) by (vm_compute; reflexivity).
  split; [exact H |].
  destruct (toggle_Hide_frame Reference.embedded Reference.world 125 640
              Reference.initial) as (_ & _ & Hnoop).
  exact (Hnoop H).
Defined.

Lemma toggle_Hide_while_shown_witness :
  reachable Reference.embedded half_shown
  /\ _shown half_shown = true
  /\ _shownAnimation
       (toggle Reference.embedded Reference.world Hide 0 0 half_shown)
     = Some (mkTween (1 # 2) (1 # 2) 0 100).
Proof.
  assert (H1 : reachable Reference.embedded half_shown)
    by (repeat apply reachable_step; apply reachable_new).
  assert (H2 : _shown half_shown = true) by (vm_compute; reflexivity).
  split; [exact H1 | split; [exact H2 |]].
  destruct (toggle_Hide_while_shown Reference.embedded Reference.world 0 0
              half_shown H1 H2) as [Hanim _].
  rewrite Hanim. vm_compute. reflexivity.
Defined.

Lemma updateGlobalPosition_embedded_witness :
  let s := updateToScale Reference.embedded 100 Reference.initial in
  _window s = false
  /\ widget_geometry
       (_widget (updateGlobalPosition Reference.world 500 s))
     = mkRect 400 600 280 131
  /\ centered_above Reference.world (_outer s) = mkRect 360 469 280 131.
Proof.
  assert (H : _window (updateToScale Reference.embedded 100
                         Reference.initial) = false)
    by (vm_compute; reflexivity).
  split; [exact H | split; [| vm_compute; reflexivity]].
  destruct (updateGlobalPosition_embedded Reference.world 500 _ H)
    as [Hgeometry _].
  rewrite Hgeometry. vm_compute. reflexivity.
Defined.

(** ** The claims as written, at concrete inputs *)

(** Against C7 as written: in floating-window mode [updateOuterPosition]
    moves the outer rect inside the window, and a later [updateToScale]
    with the stored scale returns at once, so the outer rect is not at the
    origin when that call completes. *)
Lemma updateToScale_keeps_moved_outer :
  updateToScale Reference.floating 100 floating_shown = floating_shown
  /\ topLeft (_outer (updateToScale Reference.floating 100 floating_shown))
     = mkPoint 220 262
  /\ ~ normalized (updateToScale Reference.floating 100 floating_shown).
Proof.
  split; [vm_compute; reflexivity | split; [vm_compute; reflexivity |]].
  intros (_ & _ & _ & _ & _ & _ & _ & _ & Horigin).
  vm_compute in Horigin. discriminate.
Qed.

(** The reply bar needs room.  At scale 1 the reference conversion is
    monotone and non-negative and the text metrics are sane, but
    [scaled(1) + scaled(2)] is 2 and [scaled(120)] is 1: the layout that
    [updateToScale] recomputes has a reply bar that ends right of the
    content rect. *)
Lemma updateToScale_reply_bar_needs_room :
  let s := updateToScale Reference.embedded 1 Reference.initial in
  (forall v w, 0 <= v <= w ->
     0 <= ConvertScale Reference.embedded v 1
       <= ConvertScale Reference.embedded w 1)
  /\ metrics_sane Reference.embedded s
  /\ rect_x (_replyBar s) + rect_width (_replyBar s) = 2
  /\ rect_width (_content s) = 1
  /\ ~ normalized s.
Proof.
  cbv zeta. split; [| split; [| split; [| split]]].
  - intros v w Hvw. apply convertScale_monotone; lia.
  - vm_compute. repeat split; discriminate.
  - vm_compute. reflexivity.
  - vm_compute. reflexivity.
  - intros (_ & _ & _ & (_ & _ & _ & _ & Hright & _) & _).
    vm_compute in Hright. apply Hright. reflexivity.
Qed.

(** Against C3 as written: after a palette change the shadow bitmaps and
    the userpic bitmap are still there. *)
Lemma paletteChanged_keeps_shadow_and_userpic :
  let s := handle Reference.embedded Reference.world PaletteChanged
             shown_and_painted in
  isNull (a0 (_shadowSides s)) = false
  /\ isNull (a0 (_shadowCorners s)) = false
  /\ isNull (_userpicImage s) = false.
Proof.
  vm_compute. repeat split.
Qed.

(** Against C4 as written: a first image, different from the stored one,
    requests no repaint while the cached bitmap is empty; an image equal
    to the stored one requests a repaint once the bitmap has been built. *)
Lemma userpic_redraw_ignores_difference :
  (let s := Reference.initial in
   SourceImage 1 <> _userpicOriginal s
   /\ effects (handle Reference.embedded Reference.world
                 (UserpicNext (SourceImage 1)) s) = effects s)
  /\ (let s := shown_and_painted in
      SourceImage 1 = _userpicOriginal s
      /\ effects (handle Reference.embedded Reference.world
                    (UserpicNext (SourceImage 1)) s)
         = WidgetUpdate (_outer s) :: effects s).
Proof.
  split.
  - split; [vm_compute; discriminate | vm_compute; reflexivity].
  - split; vm_compute; reflexivity.
Qed.

(** ** Witnesses of the further theorems *)

Lemma updateToScale_invalidates_witness :
  _scale Reference.with_userpic <> 100
  /\ effects (updateToScale Reference.embedded 100 Reference.with_userpic)
     = [WidgetUpdate QRect_null].
Proof.
  assert (H : _scale Reference.with_userpic <> 100)
    by (vm_compute; discriminate).
  split; [exact H |].
  destruct (updateToScale_invalidates Reference.embedded 100
              Reference.with_userpic H) as [Heffects _].
  rewrite Heffects. vm_compute. reflexivity.
Defined.

Lemma updateToScale_userpic_skip_witness :
  _scale Reference.initial <> 100
  /\ isNull (_userpicOriginal Reference.initial) = true
  /\ isNull (SourceImage 1) = false
  /\ rect_width
       (_inner (updateToScale Reference.embedded 100
                  (set_userpicOriginal (SourceImage 1) Reference.initial)))
     = rect_width
         (_inner (updateToScale Reference.embedded 100 Reference.initial))
       + 40.
Proof.
  assert (H1 : _scale Reference.initial <> 100) by (vm_compute; discriminate).
  assert (H2 : isNull (_userpicOriginal Reference.initial) = true)
    by (vm_compute; reflexivity).
  assert (H3 : isNull (SourceImage 1) = false) by reflexivity.
  split; [exact H1 | split; [exact H2 | split; [exact H3 |]]].
  destruct (updateToScale_userpic_skip Reference.embedded 100
              Reference.initial (SourceImage 1) H1 H2 H3)
    as (_ & _ & _ & _ & _ & Hwidth & _).
  rewrite Hwidth. vm_compute. reflexivity.
Defined.

Lemma adjustByScreenGeometry_clamps_witness :
  parent_screen Reference.world = Some (mkRect 0 0 1920 1080)
  /\ intersects (mkRect 0 0 1920 1080) (mkRect (-200) 200 1200 400) = true
  /\ inside_horizontally
       (adjustByScreenGeometry Reference.world (mkRect (-200) 200 1200 400)
          Reference.floating_initial)
       (mkRect 0 0 1920 1080).
Proof.
  assert (H1 : parent_screen Reference.world = Some (mkRect 0 0 1920 1080))
    by reflexivity.
  assert (H2 : intersects (mkRect 0 0 1920 1080) (mkRect (-200) 200 1200 400)
               = true) by (vm_compute; reflexivity).
  split; [exact H1 | split; [exact H2 |]].
  apply (adjustByScreenGeometry_clamps Reference.world
           (mkRect (-200) 200 1200 400) Reference.floating_initial
           (mkRect 0 0 1920 1080) H1 H2);
    vm_compute; discriminate.
Defined.

Lemma adjustByScreenGeometry_fixes_witness :
  parent_screen Reference.world = Some (mkRect 0 0 1920 1080)
  /\ inside_horizontally (mkRect 100 200 1200 400) (mkRect 0 0 1920 1080)
  /\ adjustByScreenGeometry Reference.world (mkRect 100 200 1200 400)
       Reference.floating_initial
     = mkRect 100 200 1200 400.
Proof.
  assert (H1 : parent_screen Reference.world = Some (mkRect 0 0 1920 1080))
    by reflexivity.
  assert (H2 : inside_horizontally (mkRect 100 200 1200 400)
                 (mkRect 0 0 1920 1080))
    by (vm_compute; split; discriminate).
  split; [exact H1 | split; [exact H2 |]].
  apply (adjustByScreenGeometry_fixes Reference.world
           (mkRect 100 200 1200 400) Reference.floating_initial
           (mkRect 0 0 1920 1080) H1 H2).
  vm_compute. discriminate.
Defined.

Lemma updateOuterPosition_inside_witness :
  _window floating_shown = true
  /\ 0 <= rect_x (_outer (updateOuterPosition 520 floating_shown)).
Proof.
  assert (H : _window floating_shown = true) by (vm_compute; reflexivity).
  split; [exact H |].
  destruct (updateOuterPosition_inside 520 floating_shown H)
    as (_ & Hleft & _).
  exact Hleft.
Defined.

Lemma reposition_restores_witness :
  _window floating_shown = true
  /\ _outer (updateGlobalPosition_filter Reference.world
               (updateGlobalPosition Reference.world 520 floating_shown))
     = _outer (updateGlobalPosition Reference.world 520 floating_shown).
Proof.
  assert (H : _window floating_shown = true) by (vm_compute; reflexivity).
  split; [exact H |].
  destruct (reposition_restores Reference.world 520 floating_shown H)
    as (_ & _ & Houter & _).
  exact Houter.
Defined.

Lemma reachable_filter_tracks_shown_witness :
  reachable Reference.embedded half_shown
  /\ _shown half_shown = true
  /\ exists watched, _filter half_shown = Some watched.
Proof.
  assert (H1 : reachable Reference.embedded half_shown)
    by (repeat apply reachable_step; apply reachable_new).
  assert (H2 : _shown half_shown = true) by (vm_compute; reflexivity).
  split; [exact H1 | split; [exact H2 |]].
  destruct (reachable_filter_tracks_shown Reference.embedded half_shown H1)
    as [Hfilter _].
  exact (Hfilter H2).
Defined.

Lemma deactivation_hides_witness :
  reachable Reference.embedded half_shown
  /\ handle Reference.embedded Reference.world
       (ApplicationStateChanged ApplicationInactive) half_shown
     = toggle Reference.embedded Reference.world Hide 0 0 half_shown.
Proof.
  assert (H : reachable Reference.embedded half_shown)
    by (repeat apply reachable_step; apply reachable_new).
  split; [exact H |].
  destruct (deactivation_hides Reference.embedded Reference.world
              half_shown H) as [Hstate _].
  exact (Hstate ApplicationInactive).
Defined.

Lemma toggle_while_shown_witness :
  reachable Reference.embedded half_shown
  /\ _shown half_shown = true
  /\ Update <> Hide
  /\ controls
       (toggle Reference.embedded Reference.world Update 125 520 half_shown)
     = controls half_shown.
Proof.
  assert (H1 : reachable Reference.embedded half_shown)
    by (repeat apply reachable_step; apply reachable_new).
  assert (H2 : _shown half_shown = true) by (vm_compute; reflexivity).
  assert (H3 : Update <> Hide) by discriminate.
  split; [exact H1 | split; [exact H2 | split; [exact H3 |]]].
  destruct (toggle_while_shown Reference.embedded Reference.world Update
              125 520 half_shown H1 H2 H3) as [_ Hcontrols].
  exact Hcontrols.
Defined.

Lemma toggle_Show_while_hidden_witness :
  reachable Reference.embedded Reference.with_userpic
  /\ _shown Reference.with_userpic = false
  /\ _filter
       (toggle Reference.embedded Reference.world Show 100 500
          Reference.with_userpic)
     = Some [1; 2; 3].
Proof.
  assert (H1 : reachable Reference.embedded Reference.with_userpic)
    by apply reachable_new.
  assert (H2 : _shown Reference.with_userpic = false)
    by (vm_compute; reflexivity).
  split; [exact H1 | split; [exact H2 |]].
  destruct (toggle_Show_while_hidden Reference.embedded Reference.world
              100 500 Reference.with_userpic H1 H2) as (_ & Hfilter & _).
  rewrite Hfilter. vm_compute. reflexivity.
Defined.

Lemma reachable_assets_fit_witness :
  reachable Reference.embedded shown_and_painted
  /\ isNull (_userpicImage shown_and_painted) = false
  /\ _userpicImage shown_and_painted
     = CircleImage (SourceImage 1) (mkSize 33 33) 1.
Proof.
  assert (H1 : reachable Reference.embedded shown_and_painted)
    by (repeat apply reachable_step; apply reachable_new).
  assert (H2 : isNull (_userpicImage shown_and_painted) = false)
    by (vm_compute; reflexivity).
  split; [exact H1 | split; [exact H2 |]].
  destruct (reachable_assets_fit Reference.embedded shown_and_painted H1)
    as [Huserpic _].
  rewrite (Huserpic H2). vm_compute. reflexivity.
Defined.

Lemma updateToScale_stacks_witness :
  _scale Reference.with_userpic <> 100
  /\ rect_y (_reply (updateToScale Reference.embedded 100
                       Reference.with_userpic))
     = 24.
Proof.
  assert (H : _scale Reference.with_userpic <> 100)
    by (vm_compute; discriminate).
  split; [exact H |].
  destruct (updateToScale_stacks Reference.embedded 100
              Reference.with_userpic H) as [Hreply _].
  rewrite Hreply. vm_compute. reflexivity.
Defined.

Lemma updateToScale_margins_witness :
  _scale Reference.with_userpic <> 100
  /\ topLeft (_bubble (updateToScale Reference.embedded 100
                         Reference.with_userpic))
     = mkPoint 60 16.
Proof.
  assert (H : _scale Reference.with_userpic <> 100)
    by (vm_compute; discriminate).
  split; [exact H |].
  destruct (updateToScale_margins Reference.embedded 100
              Reference.with_userpic H) as (_ & _ & Hbubble & _).
  rewrite Hbubble. vm_compute. reflexivity.
Defined.
